(** * The manila-plugin charm interface: provides.py and requires.py

    A shallow embedding of the two relation endpoints
    [ManilaPluginProvides] (the subordinate plugin) and
    [ManilaPluginRequires] (the principal, manila), together with the
    parts of Python, of the [json] module and of [charms.reactive] that
    the two classes rely on. *)

From Stdlib Require Import ZArith Ascii String List Bool Lia.
From Stdlib Require Import DecimalFacts DecimalPos DecimalN DecimalZ.
From stdpp Require Import base option gmap strings list.

Set Warnings "-register-all,-clear-no-such-hyp".
Local Open Scope Z_scope.
Local Open Scope string_scope.
Local Open Scope list_scope.

(** ** Python values and exceptions *)

(** The Python objects that flow through the interface.  Strings are over
    the code points 0..255 (one [ascii] each); floats are not modelled.  A
    dict is the list of its items in insertion order; its keys are pairwise
    different for Python's [==] (see [wf_dict]). *)
Inductive pyval : Type :=
| PyNone
| PyBool (b : bool)
| PyInt (z : Z)
| PyStr (s : string)
| PyList (l : list pyval)
| PyTuple (l : list pyval)
| PyDict (d : list (pyval * pyval)).

Inductive exn : Type :=
| ValueError
| JSONDecodeError        (* a subclass of ValueError, raised by json.loads *)
| IndexError
| KeyError
| TypeError
| AttributeError.

Inductive result (A : Type) : Type :=
| Ok (a : A)
| Raise (e : exn).
Arguments Ok {A} a.
Arguments Raise {A} e.

Definition bind {A B} (r : result A) (f : A -> result B) : result B :=
  match r with
  | Ok a => f a
  | Raise e => Raise e
  end.

Notation "'try!' x := r 'in' k" := (bind r (fun x => k))
  (at level 10, x pattern, r at level 100, k at level 200).

Module Py.

(** [a == b] on the modelled values.  [bool] is a subclass of [int], so
    [True == 1]; a list never equals a tuple; two dicts are equal when
    they have the same number of items and every item of the first is
    found, by key, in the second with an equal value. *)
Fixpoint eq (a b : pyval) {struct a} : bool :=
  match a, b with
  | PyNone, PyNone => true
  | PyBool x, PyBool y => Bool.eqb x y
  | PyBool x, PyInt y => Z.eqb (Z.b2z x) y
  | PyInt x, PyBool y => Z.eqb x (Z.b2z y)
  | PyInt x, PyInt y => Z.eqb x y
  | PyStr x, PyStr y => String.eqb x y
  | PyList xs, PyList ys | PyTuple xs, PyTuple ys =>
      (fix go (xs ys : list pyval) {struct xs} : bool :=
         match xs, ys with
         | [], [] => true
         | x :: xs', y :: ys' => eq x y && go xs' ys'
         | _, _ => false
         end) xs ys
  | PyDict xs, PyDict ys =>
      Nat.eqb (length xs) (length ys) &&
      (fix go (xs : list (pyval * pyval)) {struct xs} : bool :=
         match xs with
         | [] => true
         | (k, v) :: xs' =>
             (fix find (ys : list (pyval * pyval)) : bool :=
                match ys with
                | [] => false
                | (k', v') :: ys' => if eq k k' then eq v v' else find ys'
                end) ys && go xs'
         end) xs
  | _, _ => false
  end.

(** [k in d] and [d[k]] for a dict [d], the key found with [==]. *)
Fixpoint dict_get (d : list (pyval * pyval)) (k : pyval) : option pyval :=
  match d with
  | [] => None
  | (k', v') :: d' => if eq k k' then Some v' else dict_get d' k
  end.

Definition contains (d : list (pyval * pyval)) (k : pyval) : bool :=
  match dict_get d k with Some _ => true | None => false end.

(** [d[k] = v]: replaces the value of an existing key in place, appends
    a new key. *)
Fixpoint dict_set (d : list (pyval * pyval)) (k v : pyval)
  : list (pyval * pyval) :=
  match d with
  | [] => [(k, v)]
  | (k', v') :: d' =>
      if eq k' k then (k', v) :: d' else (k', v') :: dict_set d' k v
  end.

(** [x[key]] *)
Definition getitem (x : pyval) (key : pyval) : result pyval :=
  match x with
  | PyDict d =>
      match dict_get d key with Some v => Ok v | None => Raise KeyError end
  | _ => Raise TypeError
  end.

(** [x.keys()] and [x.items()]; only a dict has them. *)
Definition keys (x : pyval) : result (list pyval) :=
  match x with
  | PyDict d => Ok (map fst d)
  | _ => Raise AttributeError
  end.

Definition items (x : pyval) : result (list (pyval * pyval)) :=
  match x with
  | PyDict d => Ok d
  | _ => Raise AttributeError
  end.

Definition is_None (x : pyval) : bool :=
  match x with PyNone => true | _ => false end.

End Py.

(** ** The json module

    [json.dumps] with its default arguments ([ensure_ascii=True],
    separators [", "] and [": "], no indentation) and [json.loads], on JSON
    documents without fractional numbers.  Serialisation goes through the
    document tree [json]; a text is a list of characters. *)
Module Json.

Definition text := list ascii.

Inductive json : Type :=
| JNull
| JBool (b : bool)
| JInt (z : Z)
| JStr (s : string)
| JArr (l : list json)
| JObj (l : list (string * json)).

(** *** Encoder *)

Fixpoint digits (u : Decimal.uint) : text :=
  match u with
  | Decimal.Nil => []
  | Decimal.D0 u => "0"%char :: digits u
  | Decimal.D1 u => "1"%char :: digits u
  | Decimal.D2 u => "2"%char :: digits u
  | Decimal.D3 u => "3"%char :: digits u
  | Decimal.D4 u => "4"%char :: digits u
  | Decimal.D5 u => "5"%char :: digits u
  | Decimal.D6 u => "6"%char :: digits u
  | Decimal.D7 u => "7"%char :: digits u
  | Decimal.D8 u => "8"%char :: digits u
  | Decimal.D9 u => "9"%char :: digits u
  end.

(** [int.__repr__] *)
Definition render_int (z : Z) : text :=
  match Z.to_int z with
  | Decimal.Pos u => digits u
  | Decimal.Neg u => "-"%char :: digits u
  end.

Definition dquote : ascii := ascii_of_nat 34.
Definition backslash : ascii := ascii_of_nat 92.

Definition hex_digit (n : N) : ascii :=
  match n with
  | 0%N => "0" | 1%N => "1" | 2%N => "2" | 3%N => "3" | 4%N => "4"
  | 5%N => "5" | 6%N => "6" | 7%N => "7" | 8%N => "8" | 9%N => "9"
  | 10%N => "a" | 11%N => "b" | 12%N => "c" | 13%N => "d" | 14%N => "e"
  | _ => "f"
  end%char.

(** One character of a string, as [py_encode_basestring_ascii] writes
    it: the short escapes of ESCAPE_DCT, [\u00xx] for the other
    characters outside [' '..'~'], the character itself otherwise. *)
Definition escape_char (c : ascii) : text :=
  let n := N_of_ascii c in
  if (n =? 34)%N then [backslash; dquote]
  else if (n =? 92)%N then [backslash; backslash]
  else if (n =? 8)%N then [backslash; "b"%char]
  else if (n =? 12)%N then [backslash; "f"%char]
  else if (n =? 10)%N then [backslash; "n"%char]
  else if (n =? 13)%N then [backslash; "r"%char]
  else if (n =? 9)%N then [backslash; "t"%char]
  else if ((n <? 32) || (126 <? n))%N then
    [backslash; "u"; "0"; "0"; hex_digit (n / 16); hex_digit (n mod 16)]%char
  else [c].

Fixpoint escape (s : string) : text :=
  match s with
  | EmptyString => []
  | String c s' => escape_char c ++ escape s'
  end.

Definition render_str (s : string) : text :=
  dquote :: escape s ++ [dquote].

Definition comma : text := [","; " "]%char.
Definition colon : text := [":"; " "]%char.

Fixpoint render (j : json) : text :=
  match j with
  | JNull => ["n"; "u"; "l"; "l"]%char
  | JBool true => ["t"; "r"; "u"; "e"]%char
  | JBool false => ["f"; "a"; "l"; "s"; "e"]%char
  | JInt z => render_int z
  | JStr s => render_str s
  | JArr l =>
      "["%char ::
      (fix elems (l : list json) : text :=
         match l with
         | [] => []
         | [x] => render x
         | x :: l' => render x ++ comma ++ elems l'
         end) l ++ ["]"%char]
  | JObj l =>
      "{"%char ::
      (fix members (l : list (string * json)) : text :=
         match l with
         | [] => []
         | [(k, v)] => render_str k ++ colon ++ render v
         | (k, v) :: l' => render_str k ++ colon ++ render v ++ comma ++ members l'
         end) l ++ ["}"%char]
  end.

(** *** Decoder

    The recursive descent of [json.decoder] and [json.scanner]:
    [scan_once] reads one value, [parse_array] and [parse_object] the
    rest of an array or object whose first element starts at the given
    position.  The [fuel] bounds the nesting and is taken from the length
    of the text.  A number with a fraction or an exponent and a [\u]
    escape above [00ff] have no image among the modelled values; the
    decoder has no result on them. *)

Definition is_ws (c : ascii) : bool :=
  let n := N_of_ascii c in
  ((n =? 32) || (n =? 9) || (n =? 10) || (n =? 13))%N.

Fixpoint skip_ws (s : text) : text :=
  match s with
  | c :: r => if is_ws c then skip_ws r else s
  | [] => []
  end.

Definition digit_of (c : ascii) : option (Decimal.uint -> Decimal.uint) :=
  let n := N_of_ascii c in
  if (n =? 48)%N then Some Decimal.D0
  else if (n =? 49)%N then Some Decimal.D1
  else if (n =? 50)%N then Some Decimal.D2
  else if (n =? 51)%N then Some Decimal.D3
  else if (n =? 52)%N then Some Decimal.D4
  else if (n =? 53)%N then Some Decimal.D5
  else if (n =? 54)%N then Some Decimal.D6
  else if (n =? 55)%N then Some Decimal.D7
  else if (n =? 56)%N then Some Decimal.D8
  else if (n =? 57)%N then Some Decimal.D9
  else None.

Fixpoint read_digits (s : text) : Decimal.uint * text :=
  match s with
  | c :: r =>
      match digit_of c with
      | Some d => let (u, r') := read_digits r in (d u, r')
      | None => (Decimal.Nil, s)
      end
  | [] => (Decimal.Nil, [])
  end.

(** The integer part of NUMBER_RE: an optional minus sign, then a single
    zero or a digit string that does not start with a zero. *)
Definition scan_int (s : text) : option (Z * text) :=
  let (neg, s1) :=
    match s with
    | c :: r => if Ascii.eqb c "-" then (true, r) else (false, s)
    | [] => (false, s)
    end in
  match s1 with
  | c :: r =>
      if Ascii.eqb c "0" then Some (0, r)
      else
        match read_digits s1 with
        | (Decimal.Nil, _) => None
        | (u, r') =>
            Some (Z.of_int (if neg : bool then Decimal.Neg u else Decimal.Pos u), r')
        end
  | [] => None
  end.

Definition hex_val (c : ascii) : option N :=
  let n := N_of_ascii c in
  if ((48 <=? n) && (n <=? 57))%N then Some (n - 48)%N
  else if ((97 <=? n) && (n <=? 102))%N then Some (n - 87)%N
  else if ((65 <=? n) && (n <=? 70))%N then Some (n - 55)%N
  else None.

(** BACKSLASH of json.decoder *)
Definition unescape (c : ascii) : option ascii :=
  let n := N_of_ascii c in
  if (n =? 34)%N then Some dquote
  else if (n =? 92)%N then Some backslash
  else if (n =? 47)%N then Some "/"%char
  else if (n =? 98)%N then Some (ascii_of_nat 8)
  else if (n =? 102)%N then Some (ascii_of_nat 12)
  else if (n =? 110)%N then Some (ascii_of_nat 10)
  else if (n =? 114)%N then Some (ascii_of_nat 13)
  else if (n =? 116)%N then Some (ascii_of_nat 9)
  else None.

(** [py_scanstring] with [strict=True], from the character after the
    opening quote: the string and the text after the closing quote. *)
Fixpoint scanstring (s : text) : option (string * text) :=
  match s with
  | [] => None
  | c :: r =>
      if Ascii.eqb c dquote then Some (EmptyString, r)
      else if Ascii.eqb c backslash then
        match r with
        | [] => None
        | e :: r1 =>
            if Ascii.eqb e "u" then
              match r1 with
              | h1 :: h2 :: h3 :: h4 :: r2 =>
                  match hex_val h1, hex_val h2, hex_val h3, hex_val h4 with
                  | Some 0%N, Some 0%N, Some a, Some b =>
                      match scanstring r2 with
                      | Some (str, r3) =>
                          Some (String (ascii_of_N (16 * a + b)) str, r3)
                      | None => None
                      end
                  | _, _, _, _ => None
                  end
              | _ => None
              end
            else
              match unescape e with
              | Some ch =>
                  match scanstring r1 with
                  | Some (str, r2) => Some (String ch str, r2)
                  | None => None
                  end
              | None => None
              end
        end
      else if (N_of_ascii c <? 32)%N then None
      else
        match scanstring r with
        | Some (str, r1) => Some (String c str, r1)
        | None => None
        end
  end.

Fixpoint strip (p s : text) : option text :=
  match p, s with
  | [], _ => Some s
  | a :: p', b :: s' => if Ascii.eqb a b then strip p' s' else None
  | _ :: _, [] => None
  end.

Fixpoint scan_once (fuel : nat) (s : text) {struct fuel}
  : option (json * text) :=
  match fuel with
  | O => None
  | S fuel =>
      match s with
      | [] => None
      | c :: r =>
          if Ascii.eqb c dquote then
            match scanstring r with
            | Some (str, r1) => Some (JStr str, r1)
            | None => None
            end
          else if Ascii.eqb c "{" then
            match skip_ws r with
            | c1 :: r1 =>
                if Ascii.eqb c1 "}" then Some (JObj [], r1)
                else
                  match parse_object fuel (c1 :: r1) with
                  | Some (l, r2) => Some (JObj l, r2)
                  | None => None
                  end
            | [] => None
            end
          else if Ascii.eqb c "[" then
            match skip_ws r with
            | c1 :: r1 =>
                if Ascii.eqb c1 "]" then Some (JArr [], r1)
                else
                  match parse_array fuel (c1 :: r1) with
                  | Some (l, r2) => Some (JArr l, r2)
                  | None => None
                  end
            | [] => None
            end
          else if Ascii.eqb c "n" then
            match strip ["u"; "l"; "l"]%char r with
            | Some r1 => Some (JNull, r1)
            | None => None
            end
          else if Ascii.eqb c "t" then
            match strip ["r"; "u"; "e"]%char r with
            | Some r1 => Some (JBool true, r1)
            | None => None
            end
          else if Ascii.eqb c "f" then
            match strip ["a"; "l"; "s"; "e"]%char r with
            | Some r1 => Some (JBool false, r1)
            | None => None
            end
          else
            match scan_int s with
            | Some (z, r1) => Some (JInt z, r1)
            | None => None
            end
      end
  end
with parse_array (fuel : nat) (s : text) {struct fuel}
  : option (list json * text) :=
  match fuel with
  | O => None
  | S fuel =>
      match scan_once fuel s with
      | Some (v, r) =>
          match skip_ws r with
          | c :: r1 =>
              if Ascii.eqb c "]" then Some ([v], r1)
              else if Ascii.eqb c "," then
                match parse_array fuel (skip_ws r1) with
                | Some (vs, r2) => Some (v :: vs, r2)
                | None => None
                end
              else None
          | [] => None
          end
      | None => None
      end
  end
with parse_object (fuel : nat) (s : text) {struct fuel}
  : option (list (string * json) * text) :=
  match fuel with
  | O => None
  | S fuel =>
      match s with
      | c :: r =>
          if Ascii.eqb c dquote then
            match scanstring r with
            | Some (k, r1) =>
                match skip_ws r1 with
                | c1 :: r2 =>
                    if Ascii.eqb c1 ":" then
                      match scan_once fuel (skip_ws r2) with
                      | Some (v, r3) =>
                          match skip_ws r3 with
                          | c3 :: r4 =>
                              if Ascii.eqb c3 "}" then Some ([(k, v)], r4)
                              else if Ascii.eqb c3 "," then
                                match parse_object fuel (skip_ws r4) with
                                | Some (kvs, r5) => Some ((k, v) :: kvs, r5)
                                | None => None
                                end
                              else None
                          | [] => None
                          end
                      | None => None
                      end
                    else None
                | [] => None
                end
            | None => None
            end
          else None
      | [] => None
      end
  end.

(** [JSONDecoder.decode]: leading whitespace, one value, trailing
    whitespace, nothing else. *)
Definition decode (s : text) : option json :=
  match scan_once (length s) (skip_ws s) with
  | Some (j, r) =>
      match skip_ws r with
      | [] => Some j
      | _ :: _ => None
      end
  | None => None
  end.

(** *** Python objects to documents and back *)

(** The key of an object member, as [_make_iterencode] writes a dict
    key: a str as it is, [True], [False], [None] and ints by their JSON
    spelling, anything else is a TypeError. *)
Definition key_str (k : pyval) : result string :=
  match k with
  | PyStr s => Ok s
  | PyBool true => Ok "true"
  | PyBool false => Ok "false"
  | PyNone => Ok "null"
  | PyInt z => Ok (string_of_list_ascii (render_int z))
  | _ => Raise TypeError
  end.

Fixpoint to_json (x : pyval) : result json :=
  match x with
  | PyNone => Ok JNull
  | PyBool b => Ok (JBool b)
  | PyInt z => Ok (JInt z)
  | PyStr s => Ok (JStr s)
  | PyList l | PyTuple l =>
      try! js :=
        (fix elems (l : list pyval) : result (list json) :=
           match l with
           | [] => Ok []
           | x :: l' =>
               try! j := to_json x in
               try! js := elems l' in
               Ok (j :: js)
           end) l in
      Ok (JArr js)
  | PyDict d =>
      try! ms :=
        (fix members (d : list (pyval * pyval))
           : result (list (string * json)) :=
           match d with
           | [] => Ok []
           | (k, v) :: d' =>
               try! ks := key_str k in
               try! j := to_json v in
               try! ms := members d' in
               Ok ((ks, j) :: ms)
           end) d in
      Ok (JObj ms)
  end.

(** An object becomes a dict built pair by pair, so that of two members
    with one name the later value wins. *)
Fixpoint of_json (j : json) : pyval :=
  match j with
  | JNull => PyNone
  | JBool b => PyBool b
  | JInt z => PyInt z
  | JStr s => PyStr s
  | JArr l => PyList (map of_json l)
  | JObj l =>
      PyDict
        ((fix build (l : list (string * json)) (acc : list (pyval * pyval))
            : list (pyval * pyval) :=
            match l with
            | [] => acc
            | (k, v) :: l' => build l' (Py.dict_set acc (PyStr k) (of_json v))
            end) l [])
  end.

(** [json.dumps(x)] and [json.loads(s)] *)
Definition dumps (x : pyval) : result pyval :=
  try! j := to_json x in
  Ok (PyStr (string_of_list_ascii (render j))).

Definition loads (s : pyval) : result pyval :=
  match s with
  | PyStr s =>
      match decode (list_ascii_of_string s) with
      | Some j => Ok (of_json j)
      | None => Raise JSONDecodeError
      end
  | _ => Raise TypeError
  end.

End Json.

(** ** charms.reactive and charmhelpers: the relation transport

    A conversation holds the key/value data private to this unit
    ([local]), the relation settings this unit has published to the peer
    ([remote]), the settings the peer has published ([peer], read by
    [get_remote] and the auto accessors) and the states it is in.  States
    are kept under the names the source passes to [set_state], before
    [relation_name] is filled in. *)
Record Conversation : Type := mkConversation {
  local : gmap string pyval;
  remote : gmap string pyval;
  peer : gmap string pyval;
  states : gset string
}.

Definition new_conversation : Conversation := mkConversation ∅ ∅ ∅ ∅.

#[global] Instance Conversation_inhabited : Inhabited Conversation :=
  populate new_conversation.

(** hookenv.log levels; INFO is the level of a call that gives none. *)
Inductive level : Type := DEBUG | INFO | WARNING.

(** What an endpoint does to the outside: a line for hookenv.log (the
    message without the formatted values) and the writes to the
    transport. *)
Inductive event : Type :=
| Log (lvl : level) (msg : string)
| SetLocal (scope key : string) (value : pyval)
| SetRemote (scope key : string) (value : pyval).

(** The relation as one endpoint sees it.  [conversations] are the scopes
    of the conversations that [self.conversations()] returns, in its order;
    [conv] holds the conversation of each scope; [get_local] raises
    ValueError for the scopes in [unresolved], the failure that the source
    catches; [journal] collects the events, oldest first. *)
Record World : Type := mkWorld {
  conversations : list string;
  unresolved : gset string;
  conv : gmap string Conversation;
  journal : list event
}.

Definition new_world : World := mkWorld [] ∅ ∅ [].

Definition conversation (w : World) (scope : string) : Conversation :=
  conv w !!! scope.

Definition with_conversation (scope : string)
    (f : Conversation -> Conversation) (w : World) : World :=
  mkWorld (conversations w) (unresolved w)
          (<[scope := f (conversation w scope)]> (conv w)) (journal w).

Definition emit (e : event) (w : World) : World :=
  mkWorld (conversations w) (unresolved w) (conv w) (journal w ++ [e]).

(** Python code that reads and changes the relation and may raise: the
    changes made before an exception stay. *)
Definition M (A : Type) : Type := World -> World * result A.

Definition ret {A} (a : A) : M A := fun w => (w, Ok a).

Definition lift {A} (r : result A) : M A := fun w => (w, r).

Definition bindM {A B} (m : M A) (k : A -> M B) : M B :=
  fun w =>
    match m w with
    | (w', Ok a) => k a w'
    | (w', Raise e) => (w', Raise e)
    end.

Notation "'do!' x := m 'in' k" := (bindM m (fun x => k))
  (at level 10, x pattern, m at level 100, k at level 200).
Notation "m ;; k" := (bindM m (fun _ => k))
  (at level 100, k at level 200, right associativity).

(** [except ValueError] also catches the subclass JSONDecodeError. *)
Definition is_ValueError (e : exn) : bool :=
  match e with
  | ValueError | JSONDecodeError => true
  | _ => false
  end.

Definition try_except_ValueError {A} (body handler : M A) : M A :=
  fun w =>
    match body w with
    | (w', Raise e) => if is_ValueError e then handler w' else (w', Raise e)
    | (w', Ok a) => (w', Ok a)
    end.

(** [for x in l: body(x)]; a [continue] is a body that ends early. *)
Fixpoint for_each {A} (l : list A) (body : A -> M unit) : M unit :=
  match l with
  | [] => ret tt
  | x :: l' => body x ;; for_each l' body
  end.

Definition log (lvl : level) (msg : string) : M unit :=
  fun w => (emit (Log lvl msg) w, Ok tt).

(** [self.conversations()] and [self.conversations()[0].scope] *)
Definition get_conversations : M (list string) :=
  fun w => (w, Ok (conversations w)).

Definition first_scope : M string :=
  fun w =>
    match conversations w with
    | [] => (w, Raise IndexError)
    | scope :: _ => (w, Ok scope)
    end.

Definition dict_default (default : pyval) (o : option pyval) : pyval :=
  match o with Some v => v | None => default end.

(** [self.get_local(key, default=default, scope=scope)] *)
Definition get_local (key : string) (default : pyval) (scope : string)
  : M pyval :=
  fun w =>
    if decide (scope ∈ unresolved w) then (w, Raise ValueError)
    else (w, Ok (dict_default default (local (conversation w scope) !! key))).

(** [self.set_local(key=value, scope=scope)] *)
Definition set_local (key : string) (value : pyval) (scope : string)
  : M unit :=
  fun w =>
    (emit (SetLocal scope key value)
       (with_conversation scope
          (fun c => mkConversation (<[key := value]> (local c)) (remote c)
                                   (peer c) (states c)) w),
     Ok tt).

(** [self.set_remote(key=value, scope=scope)] *)
Definition set_remote (key : string) (value : pyval) (scope : string)
  : M unit :=
  fun w =>
    (emit (SetRemote scope key value)
       (with_conversation scope
          (fun c => mkConversation (local c) (<[key := value]> (remote c))
                                   (peer c) (states c)) w),
     Ok tt).

(** An auto accessor [self._key()]: the peer's setting, or None.  It reads
    the conversation of the hook that is running, [self]. *)
Definition get_remote (key : string) (self : string) : M pyval :=
  fun w => (w, Ok (dict_default PyNone (peer (conversation w self) !! key))).

(** [self.set_state(state)] and [self.remove_state(state)], on the
    conversation of the hook that is running. *)
Definition set_state (state : string) (self : string) : M unit :=
  fun w =>
    (with_conversation self
       (fun c => mkConversation (local c) (remote c) (peer c)
                                ({[state]} ∪ states c)) w,
     Ok tt).

Definition remove_state (state : string) (self : string) : M unit :=
  fun w =>
    (with_conversation self
       (fun c => mkConversation (local c) (remote c) (peer c)
                                (states c ∖ {[state]})) w,
     Ok tt).

Definition connected : string := "{relation_name}.connected".
Definition available : string := "{relation_name}.available".
Definition changed_state : string := "{relation_name}.changed".

(** Whether the conversation [scope] is in [state]. *)
Definition in_state (w : World) (scope state : string) : Prop :=
  state ∈ states (conversation w scope).

(** The envelope [{"data": x}]. *)
Definition envelope (x : pyval) : pyval := PyDict [(PyStr "data", x)].

(** ** provides.py: ManilaPluginProvides, the plugin's end *)
Module Provides.

Definition _authentication_data (self : string) : M pyval :=
  get_remote "_authentication_data" self.

Definition update_status (self : string) : M unit :=
  do! data := _authentication_data self in
  log DEBUG "ManilaPlugin (subordinate): update_status() called, self._authentication_data(): {}" ;;
  do! data := _authentication_data self in
  if negb (Py.is_None data) then
    log DEBUG "ManilaPlugin (subordinate): update-status->available" ;;
    set_state available self ;;
    set_state changed_state self
  else ret tt.

Definition joined (self : string) : M unit :=
  log DEBUG "ManilaPlugin (subordinate): joined" ;;
  set_state connected self ;;
  update_status self.

Definition changed (self : string) : M unit :=
  log DEBUG "ManilaPlugin (subordinate): changed" ;;
  update_status self.

Definition departed (self : string) : M unit :=
  log DEBUG "ManilaPlugin (subordinate): broken, departed" ;;
  remove_state changed_state self ;;
  remove_state available self ;;
  remove_state connected self.

Definition clear_changed (self : string) : M unit :=
  remove_state changed_state self.

(** The [name] property and its setter. *)
Definition name : M pyval :=
  do! scope := first_scope in
  get_local "_name" PyNone scope.

Definition set_name (name : pyval) : M unit :=
  do! scope := first_scope in
  set_local "_name" name scope ;;
  set_remote "_name" name scope.

(** The [authentication_data] property. *)
Definition authentication_data (self : string) : M pyval :=
  do! data := _authentication_data self in
  if Py.is_None data then ret PyNone
  else lift (try! x := Json.loads data in Py.getitem x (PyStr "data")).

(** The [configuration_data] property and its setter. *)
Definition configuration_data : M pyval :=
  do! scope := first_scope in
  do! data := get_local "_configuration_data" PyNone scope in
  if Py.is_None data then ret PyNone
  else
    log DEBUG "ManilaPlugin (subordinate): have config: {}" ;;
    lift (try! x := Json.loads data in Py.getitem x (PyStr "data")).

Definition set_configuration_data (data : pyval) : M unit :=
  do! scope := first_scope in
  do! s := lift (Json.dumps (envelope data)) in
  set_local "_configuration_data" s scope ;;
  do! s := lift (Json.dumps (envelope data)) in
  set_remote "_configuration_data" s scope.

End Provides.

(** ** requires.py: ManilaPluginRequires, manila's end *)
Module Requires.

Definition _name (self : string) : M pyval := get_remote "_name" self.

Definition _configuration_data (self : string) : M pyval :=
  get_remote "_configuration_data" self.

Definition update_status (self : string) : M unit :=
  do! name := _name self in
  do! both :=
    (if negb (Py.is_None name) then
       do! data := _configuration_data self in
       ret (negb (Py.is_None data))
     else ret false) in
  if both : bool then
    do! _ := _name self in
    do! _ := _configuration_data self in
    log INFO "ManilaPlugin (principal): have _name:{} and _configuration data:{}" ;;
    set_state available self ;;
    set_state changed_state self
  else ret tt.

Definition joined (self : string) : M unit :=
  log DEBUG "ManilaPlugin (principal): joined" ;;
  set_state connected self ;;
  update_status self.

Definition changed (self : string) : M unit :=
  log DEBUG "ManilaPlugin (principal): changed" ;;
  update_status self.

Definition departed (self : string) : M unit :=
  log DEBUG "ManilaPlugin (principal): broken, departed" ;;
  remove_state connected self ;;
  remove_state available self ;;
  remove_state changed_state self.

Definition clear_changed (self : string) : M unit :=
  remove_state changed_state self.

(** The [name] property. *)
Definition name (self : string) : M pyval := _name self.

(** The [authentication_data] property. *)
Definition authentication_data : M pyval :=
  do! data :=
    try_except_ValueError
      (do! scope := first_scope in
       do! data := get_local "_authentication_data" PyNone scope in
       ret (Some data))
      (ret None) in
  match data with
  | None => ret PyNone
  | Some data =>
      if Py.is_None data then ret PyNone
      else lift (try! x := Json.loads data in Py.getitem x (PyStr "data"))
  end.

(** The eight expected keys. *)
Definition keys : list pyval :=
  [PyStr "username"; PyStr "password"; PyStr "project_domain_id";
   PyStr "project_name"; PyStr "user_domain_id"; PyStr "auth_uri";
   PyStr "auth_url"; PyStr "auth_type"].

(** [a.difference(b)] on sets given by their elements *)
Definition difference (a b : list pyval) : list pyval :=
  List.filter (fun k => negb (existsb (Py.eq k) b)) a.

Definition nonempty (s : list pyval) : bool :=
  match s with [] => false | _ :: _ => true end.

(** [a.keys() == b.keys()]: as many keys, and each key of [a] in [b]. *)
Definition keys_eq (a b : list (pyval * pyval)) : bool :=
  Nat.eqb (length a) (length b) && forallb (fun k => Py.contains b k) (map fst a).

(** [[v == value[k] for k, v in items]] *)
Fixpoint compare_items (items : list (pyval * pyval)) (value : pyval)
  : result (list bool) :=
  match items with
  | [] => Ok []
  | (k, v) :: items' =>
      try! x := Py.getitem value k in
      try! bs := compare_items items' value in
      Ok (Py.eq v x :: bs)
  end.

(** The test of the loop: the stored payload has the keys of [value] and
    the same value under each. *)
Definition unchanged (existing_auth value : pyval) : result bool :=
  try! existing_items := Py.items existing_auth in
  try! value_items := Py.items value in
  if keys_eq existing_items value_items then
    try! bs := compare_items existing_items value in
    Ok (forallb id bs)
  else Ok false.

(** The body of the loop over the conversations. *)
Definition send_authentication_data (value : pyval) (scope : string)
  : M unit :=
  do! existing_auth_data :=
    try_except_ValueError
      (get_local "_authentication_data" PyNone scope)
      (ret PyNone) in
  do! skip :=
    (if negb (Py.is_None existing_auth_data) then
       do! existing_auth :=
         lift (try! x := Json.loads existing_auth_data in
               Py.getitem x (PyStr "data")) in
       lift (unchanged existing_auth value)
     else ret false) in
  if skip : bool then ret tt
  else
    do! s := lift (Json.dumps (envelope value)) in
    set_local "_authentication_data" s scope ;;
    do! s := lift (Json.dumps (envelope value)) in
    set_remote "_authentication_data" s scope.

(** The setter of the [authentication_data] property. *)
Definition set_authentication_data (value : pyval) : M unit :=
  log DEBUG "ManilaPlugin (principal) Setting authentication data:{}" ;;
  do! passed_keys := lift (Py.keys value) in
  (if nonempty (difference passed_keys keys)
      || nonempty (difference keys passed_keys)
   then log WARNING "Setting Authentication data; there may be missing or mispelt keys: passed: {}"
   else ret tt) ;;
  do! scopes := get_conversations in
  for_each scopes (send_authentication_data value).

(** The [configuration_data] property. *)
Definition configuration_data (self : string) : M pyval :=
  do! data := _configuration_data self in
  if Py.is_None data then ret PyNone
  else
    log DEBUG "ManilaPlugin (principal): have configuration_data: {}" ;;
    lift (try! x := Json.loads data in Py.getitem x (PyStr "data")).

End Requires.

(** ** Notions used to state the properties *)

Module PySpec.

Definition is_str (x : pyval) : bool :=
  match x with PyStr _ => true | _ => false end.

(** Keys that are pairwise different for [==], as the keys of a dict
    are. *)
Fixpoint distinct (ks : list pyval) : bool :=
  match ks with
  | [] => true
  | k :: ks' => negb (existsb (Py.eq k) ks') && distinct ks'
  end.

(** The values that JSON has a form of its own for: None, booleans,
    integers, strings, lists of such values and dicts from strings to
    such values.  A tuple is not among them. *)
Fixpoint native (x : pyval) : bool :=
  match x with
  | PyNone | PyBool _ | PyInt _ | PyStr _ => true
  | PyList l =>
      (fix all (l : list pyval) : bool :=
         match l with
         | [] => true
         | x :: l' => native x && all l'
         end) l
  | PyTuple _ => false
  | PyDict d =>
      forallb is_str (map fst d) && distinct (map fst d) &&
      (fix all (d : list (pyval * pyval)) : bool :=
         match d with
         | [] => true
         | (_, v) :: d' => native v && all d'
         end) d
  end.

Fixpoint all_native (l : list pyval) : bool :=
  match l with
  | [] => true
  | x :: l' => native x && all_native l'
  end.

Fixpoint values_native (d : list (pyval * pyval)) : bool :=
  match d with
  | [] => true
  | (_, v) :: d' => native v && values_native d'
  end.

(** The items that [==] looks up in a second dict. *)
Definition item_found (d : list (pyval * pyval)) (kv : pyval * pyval)
  : bool :=
  match Py.dict_get d (fst kv) with
  | Some v' => Py.eq (snd kv) v'
  | None => false
  end.

End PySpec.

Module JsonSpec.
Import Json.

(** The elements of an array and the members of an object, as [render]
    writes them between the brackets. *)
Fixpoint render_elems (l : list json) : text :=
  match l with
  | [] => []
  | [x] => render x
  | x :: l' => render x ++ comma ++ render_elems l'
  end.

Fixpoint render_members (l : list (string * json)) : text :=
  match l with
  | [] => []
  | [(k, v)] => render_str k ++ colon ++ render v
  | (k, v) :: l' =>
      render_str k ++ colon ++ render v ++ comma ++ render_members l'
  end.

(** The parts of [to_json] and [of_json] that work on the elements of
    a list and the items of a dict. *)
Fixpoint to_json_elems (l : list pyval) : result (list json) :=
  match l with
  | [] => Ok []
  | x :: l' =>
      try! j := to_json x in
      try! js := to_json_elems l' in
      Ok (j :: js)
  end.

Fixpoint to_json_members (d : list (pyval * pyval))
  : result (list (string * json)) :=
  match d with
  | [] => Ok []
  | (k, v) :: d' =>
      try! ks := key_str k in
      try! j := to_json v in
      try! ms := to_json_members d' in
      Ok ((ks, j) :: ms)
  end.

Fixpoint build (l : list (string * json)) (acc : list (pyval * pyval))
  : list (pyval * pyval) :=
  match l with
  | [] => acc
  | (k, v) :: l' => build l' (Py.dict_set acc (PyStr k) (of_json v))
  end.

Definition of_member (m : string * json) : pyval * pyval :=
  (PyStr (fst m), of_json (snd m)).

(** A bound on the fuel that decoding the text of a document takes. *)
Fixpoint size (j : json) : nat :=
  match j with
  | JArr l =>
      S ((fix sizes (l : list json) : nat :=
            match l with
            | [] => O
            | x :: l' => S (size x + sizes l')
            end) l)
  | JObj l =>
      S ((fix sizes (l : list (string * json)) : nat :=
            match l with
            | [] => O
            | (_, v) :: l' => S (size v + sizes l')
            end) l)
  | _ => 1%nat
  end.

Fixpoint sizes (l : list json) : nat :=
  match l with
  | [] => O
  | x :: l' => S (size x + sizes l')
  end.

Fixpoint member_sizes (l : list (string * json)) : nat :=
  match l with
  | [] => O
  | (_, v) :: l' => S (size v + member_sizes l')
  end.

(** The text after a number must not go on with a digit. *)
Definition no_digit (rest : text) : Prop :=
  match rest with
  | [] => True
  | c :: _ => digit_of c = None
  end.

(** A text that starts with a character other than white space and a
    closing bracket. *)
Definition starts (t : text) : Prop :=
  match t with
  | [] => False
  | c :: _ => is_ws c = false /\ Ascii.eqb c "]" = false
  end.

(** The first steps of [parse_object]: a name, a colon and a value. *)
Definition scan_member (fuel : nat) (s : text)
  : option (string * json * text) :=
  match s with
  | c :: r =>
      if Ascii.eqb c dquote then
        match scanstring r with
        | Some (k, r1) =>
            match skip_ws r1 with
            | c1 :: r2 =>
                if Ascii.eqb c1 ":" then
                  match scan_once fuel (skip_ws r2) with
                  | Some (v, r3) => Some (k, v, r3)
                  | None => None
                  end
                else None
            | [] => None
            end
        | None => None
        end
      else None
  | [] => None
  end.

End JsonSpec.

(** ** Runs of an endpoint *)

(** The relation after a piece of code has run, and what the code
    returned or raised. *)
Definition exec {A} (m : M A) (w : World) : World := fst (m w).
Definition outcome {A} (m : M A) (w : World) : result A := snd (m w).

(** The relation without the journal. *)
Definition relation_of (w : World)
  : list string * gset string * gmap string Conversation :=
  (conversations w, unresolved w, conv w).

(** What the rest of the system does to the relation between two calls:
    the peer publishes a setting, or the conversations that the endpoint
    is given, and those whose local data cannot be fetched, change. *)
Inductive env : Type :=
| PeerSet (scope key : string) (value : pyval)
| Conversations (scopes : list string) (failing : gset string).

Definition env_step (e : env) (w : World) : World :=
  match e with
  | PeerSet scope key value =>
      with_conversation scope
        (fun c => mkConversation (local c) (remote c)
                                 (<[key := value]> (peer c)) (states c)) w
  | Conversations scopes failing =>
      mkWorld scopes failing (conv w) (journal w)
  end.

(** The writes to the transport among some events, and those of one
    conversation. *)
Definition is_write (e : event) : bool :=
  match e with
  | Log _ _ => false
  | SetLocal _ _ _ | SetRemote _ _ _ => true
  end.


Definition writes (evs : list event) : list event := List.filter is_write evs.


(** One write of [value] under [key]: to the local data of the
    conversation and to the settings the peer sees. *)
Definition write_pair (scope key : string) (value : pyval) : list event :=
  [SetLocal scope key value; SetRemote scope key value].

(** Writes that come in such pairs only. *)
Inductive paired : list event -> Prop :=
| paired_nil : paired []
| paired_cons (scope key : string) (value : pyval) (l : list event) :
    paired l -> paired (write_pair scope key value ++ l).

(** The plugin's end: the calls of the dispatcher and of the charm. *)
Module PluginEndpoint.

Inductive call : Type :=
| Joined (self : string)
| Changed (self : string)
| Departed (self : string)
| UpdateStatus (self : string)
| ClearChanged (self : string)
| GetName
| SetName (name : pyval)
| GetAuthenticationData (self : string)
| GetConfigurationData
| SetConfigurationData (data : pyval).

Definition run (c : call) (w : World) : World :=
  match c with
  | Joined self => exec (Provides.joined self) w
  | Changed self => exec (Provides.changed self) w
  | Departed self => exec (Provides.departed self) w
  | UpdateStatus self => exec (Provides.update_status self) w
  | ClearChanged self => exec (Provides.clear_changed self) w
  | GetName => exec Provides.name w
  | SetName name => exec (Provides.set_name name) w
  | GetAuthenticationData self => exec (Provides.authentication_data self) w
  | GetConfigurationData => exec Provides.configuration_data w
  | SetConfigurationData data => exec (Provides.set_configuration_data data) w
  end.

Inductive step : Type :=
| Call (c : call)
| Env (e : env).

Definition do_step (s : step) (w : World) : World :=
  match s with
  | Call c => run c w
  | Env e => env_step e w
  end.

Definition run_steps (l : list step) (w : World) : World :=
  fold_left (fun w s => do_step s w) l w.

Inductive reachable : World -> Prop :=
| reachable_new : reachable new_world
| reachable_step (w : World) (s : step) :
    reachable w -> reachable (do_step s w).

End PluginEndpoint.

(** The principal's end. *)
Module PrincipalEndpoint.

Inductive call : Type :=
| Joined (self : string)
| Changed (self : string)
| Departed (self : string)
| UpdateStatus (self : string)
| ClearChanged (self : string)
| GetName (self : string)
| GetAuthenticationData
| SetAuthenticationData (value : pyval)
| GetConfigurationData (self : string).

Definition run (c : call) (w : World) : World :=
  match c with
  | Joined self => exec (Requires.joined self) w
  | Changed self => exec (Requires.changed self) w
  | Departed self => exec (Requires.departed self) w
  | UpdateStatus self => exec (Requires.update_status self) w
  | ClearChanged self => exec (Requires.clear_changed self) w
  | GetName self => exec (Requires.name self) w
  | GetAuthenticationData => exec Requires.authentication_data w
  | SetAuthenticationData value =>
      exec (Requires.set_authentication_data value) w
  | GetConfigurationData self => exec (Requires.configuration_data self) w
  end.

Inductive step : Type :=
| Call (c : call)
| Env (e : env).

Definition do_step (s : step) (w : World) : World :=
  match s with
  | Call c => run c w
  | Env e => env_step e w
  end.

Definition run_steps (l : list step) (w : World) : World :=
  fold_left (fun w s => do_step s w) l w.

Inductive reachable : World -> Prop :=
| reachable_new : reachable new_world
| reachable_step (w : World) (s : step) :
    reachable w -> reachable (do_step s w).

End PrincipalEndpoint.

(** Code that keeps a property of the relation, whether it returns or
    raises. *)
Definition preserves {A} (P : World -> Prop) (m : M A) : Prop :=
  forall w, P w -> P (exec m w).

(** How one step can change the states [S] of a conversation into [S']:
    not at all, by setting [connected], by setting [available] and
    [changed] together, or, in the two named steps only, by removing all
    three states or [changed] alone. *)
Definition flag_effect (S S' : gset string) (departs clears : Prop) : Prop :=
  S' = S \/
  S' = {[connected]} ∪ S \/
  S' = {[changed_state]} ∪ ({[available]} ∪ S) \/
  S' = {[changed_state]} ∪ ({[available]} ∪ ({[connected]} ∪ S)) \/
  (departs /\ S' = S ∖ {[connected; available; changed_state]}) \/
  (clears /\ S' = S ∖ {[changed_state]}).

(** ** Sample runs *)

(** The plugin's only conversation after the principal has published its
    credentials and the relation has been joined. *)
Definition plugin_joined : World :=
  PluginEndpoint.run_steps
    [PluginEndpoint.Env
       (PeerSet "global" "_authentication_data"
          (PyStr "{}"));
     PluginEndpoint.Call (PluginEndpoint.Joined "global")]
    new_world.

(** The principal's conversation with the unit [plugin/0], which has
    published a name and its configuration. *)
Definition principal_joined : World :=
  PrincipalEndpoint.run_steps
    [PrincipalEndpoint.Env (PeerSet "plugin/0" "_name" (PyStr "generic"));
     PrincipalEndpoint.Env
       (PeerSet "plugin/0" "_configuration_data" (PyStr "{}"));
     PrincipalEndpoint.Call (PrincipalEndpoint.Joined "plugin/0")]
    new_world.

(** ** The two ends together *)





(** The configuration data of the scenario, and the same with the pairs
    written as tuples, as the docstrings of the two properties show
    them. *)
Definition sample_configuration : pyval :=
  PyDict [(PyStr "complete", PyBool true);
          (PyStr "cinder.conf",
           PyDict [(PyStr "DEFAULT", PyList [PyList [PyStr "a"; PyStr "b"]])])].


(** Authentication data with the eight keys, and without [auth_type]. *)
Definition sample_authentication : pyval :=
  PyDict [(PyStr "username", PyStr "manila");
          (PyStr "password", PyStr "secret");
          (PyStr "project_domain_id", PyStr "default");
          (PyStr "project_name", PyStr "services");
          (PyStr "user_domain_id", PyStr "default");
          (PyStr "auth_uri", PyStr "http://keystone:5000");
          (PyStr "auth_url", PyStr "http://keystone:35357");
          (PyStr "auth_type", PyStr "password")].


(** ** The authentication data that a conversation holds *)

(** The text under [_authentication_data] in the local data of a
    conversation, or None. *)
Definition stored (w : World) (scope : string) : pyval :=
  dict_default PyNone
    (local (conversation w scope) !! "_authentication_data").

(** The record in a stored text: [json.loads(text)["data"]]. *)
Definition payload (text : pyval) : result pyval :=
  try! x := Json.loads text in Py.getitem x (PyStr "data").

(** A stored record differs from [value] in its key set, or in the value
    under one of its keys. *)
Definition differs (old value : list (pyval * pyval)) : Prop :=
  Requires.keys_eq old value = false \/
  exists k v x,
    In (k, v) old /\ Py.dict_get value k = Some x /\ Py.eq v x = false.

(** Nothing is stored for the conversation, or what is stored differs
    from [value]. *)
Definition outdated (w : World) (scope : string)
    (value : list (pyval * pyval)) : Prop :=
  stored w scope = PyNone \/
  exists old, payload (stored w scope) = Ok (PyDict old) /\ differs old value.

(** What is stored for the conversation is nothing or the text of an
    envelope around a dict. *)
Definition well_stored (w : World) (scope : string) : Prop :=
  stored w scope = PyNone \/
  exists old, payload (stored w scope) = Ok (PyDict old).

(** The test of the setter's loop on what is stored, when it can be
    made: whether the conversation is passed over. *)
Definition passed_over (w : World) (scope : string) (value : pyval) : bool :=
  negb (Py.is_None (stored w scope)) &&
  match payload (stored w scope) with
  | Ok old => Py.eq old value
  | Raise _ => false
  end.

(** The events that a run from [w] to [w'] has added to the journal. *)
Definition since (w w' : World) : list event :=
  drop (length (journal w)) (journal w').

(** What the setter writes for one conversation. *)
Definition auth_writes (scope : string) (text : string) : list event :=
  write_pair scope "_authentication_data" (PyStr text).

(** The principal with two conversations; for the first one it holds the
    eight-key authentication data, for the second one nothing. *)
Definition principal_two : World :=
  exec (set_local "_authentication_data"
          (PyStr match Json.dumps (envelope sample_authentication) with
                 | Ok (PyStr s) => s
                 | _ => EmptyString
                 end)
          "plugin/0")
       (mkWorld ["plugin/0"; "plugin/1"] ∅ ∅ []).


(** An endpoint with the one conversation that the library has joined
    for it, and nothing else. *)
Definition fresh_world : World := mkWorld ["global"] ∅ ∅ [].

(** The state after the setter has written [text] for a conversation. *)
Definition written (text : string) (scope : string) (w : World) : World :=
  exec (set_remote "_authentication_data" (PyStr text) scope)
    (exec (set_local "_authentication_data" (PyStr text) scope) w).

(** The key set of [value] is not the set of the eight expected keys. *)
Definition mismatched (value : list (pyval * pyval)) : bool :=
  Requires.nonempty (Requires.difference (map fst value) Requires.keys)
  || Requires.nonempty (Requires.difference Requires.keys (map fst value)).

(** The two lines that the setter logs. *)
Definition setting_line : event :=
  Log DEBUG "ManilaPlugin (principal) Setting authentication data:{}".

Definition warning_line : event :=
  Log WARNING "Setting Authentication data; there may be missing or mispelt keys: passed: {}".

(** The writes of a call of the setter, conversation by conversation. *)
Definition setter_writes (w : World) (value : pyval) (text : string)
  : list event :=
  flat_map (fun sc => if passed_over w sc value then []
                      else auth_writes sc text)
           (conversations w).

(** The text that a setter writes for [x], and the items of a dict. *)
Definition text_of (x : pyval) : string :=
  match Json.dumps (envelope x) with
  | Ok (PyStr s) => s
  | _ => EmptyString
  end.

Definition items_of (x : pyval) : list (pyval * pyval) :=
  match x with PyDict d => d | _ => [] end.


(** The local data and the remote settings of a conversation agree under
    [key]. *)
Definition synced (scope key : string) (w : World) : Prop :=
  local (conversation w scope) !! key = remote (conversation w scope) !! key.

(** The journal has grown from that of [w0] by events whose writes come
    in pairs. *)
Definition paired_since (w0 w : World) : Prop :=
  exists evs, journal w = journal w0 ++ evs /\ paired (writes evs).

(** The two writes that every setter ends with, from the serialisation
    on. *)
Definition write_both (key : string) (r : result pyval) (scope : string)
  : M unit :=
  do! s := lift r in
  set_local key s scope ;;
  do! s := lift r in
  set_remote key s scope.

(** The plugin after it has been given its conversation and has set its
    name. *)
Definition plugin_named : World :=
  PluginEndpoint.run_steps
    [PluginEndpoint.Env (Conversations ["global"] ∅);
     PluginEndpoint.Call (PluginEndpoint.SetName (PyStr "generic"))]
    new_world.






(** ** What a call leaves alone *)

(** The journal has grown from that of [w0] by log lines only. *)
Definition silent_since (w0 w : World) : Prop :=
  exists evs, journal w = journal w0 ++ evs /\ writes evs = [].

(** The relation is as it was in [w0], and nothing has been written. *)
Definition untouched_since (w0 w : World) : Prop :=
  relation_of w = relation_of w0 /\ silent_since w0 w.

(** The conversations are those of [w0] and hold the data they held,
    and nothing has been written. *)
Definition data_kept_since (w0 w : World) : Prop :=
  conversations w = conversations w0 /\
  (forall sc,
     local (conversation w sc) = local (conversation w0 sc) /\
     remote (conversation w sc) = remote (conversation w0 sc) /\
     peer (conversation w sc) = peer (conversation w0 sc)) /\
  silent_since w0 w.

(** * Properties *)

(** ** Python values *)
Module PyFacts.
Import PySpec.

(** Induction on a value, with the property at hand for the elements of
    a list or tuple and for the keys and values of a dict. *)
Lemma pyval_ind' (P : pyval -> Prop)
  (HNone : P PyNone)
  (HBool : forall b, P (PyBool b))
  (HInt : forall z, P (PyInt z))
  (HStr : forall s, P (PyStr s))
  (HList : forall l, Forall P l -> P (PyList l))
  (HTuple : forall l, Forall P l -> P (PyTuple l))
  (HDict : forall d, Forall (fun kv => P (fst kv) /\ P (snd kv)) d ->
                     P (PyDict d)) :
  forall x, P x.
Proof.
  exact
    (fix F (x : pyval) : P x :=
       match x with
       | PyNone => HNone
       | PyBool b => HBool b
       | PyInt z => HInt z
       | PyStr s => HStr s
       | PyList l =>
           HList l
             ((fix G (l : list pyval) : Forall P l :=
                 match l with
                 | [] => @List.Forall_nil _ P
                 | y :: l' => @List.Forall_cons _ P y l' (F y) (G l')
                 end) l)
       | PyTuple l =>
           HTuple l
             ((fix G (l : list pyval) : Forall P l :=
                 match l with
                 | [] => @List.Forall_nil _ P
                 | y :: l' => @List.Forall_cons _ P y l' (F y) (G l')
                 end) l)
       | PyDict d =>
           HDict d
             ((fix G (d : list (pyval * pyval))
                 : Forall (fun kv => P (fst kv) /\ P (snd kv)) d :=
                 match d with
                 | [] => @List.Forall_nil _ _
                 | (k, v) :: d' =>
                     @List.Forall_cons _ _ (k, v) d' (conj (F k) (F v)) (G d')
                 end) d)
       end).
Qed.

Lemma native_list (l : list pyval) : native (PyList l) = all_native l.
Proof. reflexivity. Qed.

Lemma native_dict (d : list (pyval * pyval)) :
  native (PyDict d) =
  forallb is_str (map fst d) && distinct (map fst d) && values_native d.
Proof. reflexivity. Qed.

Lemma eq_list (xs ys : list pyval) :
  Py.eq (PyList xs) (PyList ys) =
  match xs, ys with
  | [], [] => true
  | x :: xs', y :: ys' => Py.eq x y && Py.eq (PyList xs') (PyList ys')
  | _, _ => false
  end.
Proof. destruct xs, ys; reflexivity. Qed.

Lemma eq_dict (xs ys : list (pyval * pyval)) :
  Py.eq (PyDict xs) (PyDict ys) =
  Nat.eqb (length xs) (length ys) && forallb (item_found ys) xs.
Proof.
  cbn [Py.eq]. f_equal.
  induction xs as [|[k v] xs IH]; [reflexivity|].
  cbn [forallb]. rewrite <- IH. f_equal.
  unfold item_found. cbn [fst snd]. clear IH.
  induction ys as [|[k' v'] ys IHy]; [reflexivity|].
  cbn [Py.dict_get]. destruct (Py.eq k k'); [reflexivity | exact IHy].
Qed.

Lemma distinct_app (xs ys : list pyval) (k : pyval) :
  distinct (xs ++ k :: ys) = true ->
  Forall (fun a => Py.eq a k = false) xs.
Proof.
  induction xs as [|a xs IH]; cbn [app distinct]; intros H; [constructor|].
  apply andb_prop in H as [Ha Hd]. constructor; [|apply IH, Hd].
  apply negb_true_iff in Ha. rewrite existsb_app in Ha.
  apply orb_false_elim in Ha as [_ Ha]. cbn [existsb] in Ha.
  apply orb_false_elim in Ha as [Ha _]. exact Ha.
Qed.

Lemma dict_set_fresh (acc : list (pyval * pyval)) (k v : pyval) :
  Forall (fun a => Py.eq a k = false) (map fst acc) ->
  Py.dict_set acc k v = acc ++ [(k, v)].
Proof.
  induction acc as [|[k' v'] acc IH]; cbn [map Py.dict_set app fst];
    intros H; [reflexivity|].
  inversion H as [|? ? Hk Hacc]; subst. cbn [fst] in Hk. rewrite Hk.
  rewrite IH by assumption. reflexivity.
Qed.

End PyFacts.

(** ** The json module: decoding what the encoder wrote *)
Module JsonFacts.
Import Json JsonSpec PySpec PyFacts.

Lemma read_digits_digits (u : Decimal.uint) (rest : text) :
  no_digit rest -> read_digits (digits u ++ rest) = (u, rest).
Proof.
  intros Hrest.
  induction u as [|u IH|u IH|u IH|u IH|u IH|u IH|u IH|u IH|u IH|u IH];
    cbn [digits app read_digits];
    try (change (digit_of _) with (Some Decimal.D0) ||
         change (digit_of _) with (Some Decimal.D1) ||
         change (digit_of _) with (Some Decimal.D2) ||
         change (digit_of _) with (Some Decimal.D3) ||
         change (digit_of _) with (Some Decimal.D4) ||
         change (digit_of _) with (Some Decimal.D5) ||
         change (digit_of _) with (Some Decimal.D6) ||
         change (digit_of _) with (Some Decimal.D7) ||
         change (digit_of _) with (Some Decimal.D8) ||
         change (digit_of _) with (Some Decimal.D9));
    try (cbv iota beta; rewrite IH; reflexivity).
  destruct rest as [|c rest]; [reflexivity|].
  cbn [read_digits]. cbn in Hrest. rewrite Hrest. reflexivity.
Qed.

Lemma to_uint_normal (p : positive) :
  Decimal.unorm (Pos.to_uint p) = Pos.to_uint p.
Proof.
  rewrite <- DecimalPos.Unsigned.to_of.
  rewrite DecimalPos.Unsigned.of_to. reflexivity.
Qed.

(** The decimal form of a positive number starts with a digit that is
    not zero. *)
Lemma to_uint_head (p : positive) :
  match Pos.to_uint p with
  | Decimal.Nil | Decimal.D0 _ => False
  | _ => True
  end.
Proof.
  pose proof (to_uint_normal p) as Hn.
  pose proof (DecimalPos.Unsigned.to_uint_nonzero p) as Hz.
  pose proof (DecimalPos.Unsigned.to_uint_nonnil p) as Hnil.
  destruct (Pos.to_uint p) as [|u|u|u|u|u|u|u|u|u|u]; try exact I.
  - congruence.
  - rewrite DecimalFacts.unorm_D0 in Hn. unfold Decimal.unorm in Hn.
    destruct (Decimal.nzhead u) eqn:Hu;
      try (exfalso; eapply DecimalFacts.nzhead_nonzero; rewrite Hu; exact Hn).
    apply Hz. symmetry. exact Hn.
Qed.

Lemma scan_int_render (z : Z) (rest : text) :
  no_digit rest -> scan_int (render_int z ++ rest) = Some (z, rest).
Proof.
  intros Hrest. destruct z as [|p|p].
  - reflexivity.
  - unfold render_int. cbn [Z.to_int].
    pose proof (to_uint_head p) as Hh.
    pose proof (read_digits_digits (Pos.to_uint p) rest Hrest) as Hr.
    pose proof (DecimalZ.of_to (Z.pos p)) as Hz. cbn [Z.to_int] in Hz.
    destruct (Pos.to_uint p) as [|u|u|u|u|u|u|u|u|u|u] eqn:Hu;
      try contradiction;
      unfold scan_int; cbn [digits app];
      match goal with
      | |- context [Ascii.eqb ?c "-"] => change (Ascii.eqb c "-") with false
      end; cbv iota beta;
      match goal with
      | |- context [Ascii.eqb ?c "0"] => change (Ascii.eqb c "0") with false
      end; cbv iota beta;
      cbn [digits app] in Hr; rewrite Hr; rewrite Hz; reflexivity.
  - unfold render_int. cbn [Z.to_int].
    pose proof (to_uint_head p) as Hh.
    pose proof (read_digits_digits (Pos.to_uint p) rest Hrest) as Hr.
    pose proof (DecimalZ.of_to (Z.neg p)) as Hz. cbn [Z.to_int] in Hz.
    destruct (Pos.to_uint p) as [|u|u|u|u|u|u|u|u|u|u] eqn:Hu;
      try contradiction;
      unfold scan_int; cbn [digits app];
      change (Ascii.eqb "-" "-") with true; cbv iota beta;
      match goal with
      | |- context [Ascii.eqb ?c "0"] => change (Ascii.eqb c "0") with false
      end; cbv iota beta;
      cbn [digits app] in Hr; rewrite Hr; rewrite Hz; reflexivity.
Qed.

Lemma scanstring_escape_char (c : ascii) (rest : text) :
  scanstring (escape_char c ++ rest) =
  match scanstring rest with
  | Some (str, r) => Some (String c str, r)
  | None => None
  end.
Proof.
  destruct c as [[] [] [] [] [] [] [] []]; reflexivity.
Qed.

Lemma scanstring_escape (s : string) (rest : text) :
  scanstring (escape s ++ dquote :: rest) = Some (s, rest).
Proof.
  induction s as [|c s IH]; [reflexivity|].
  cbn [escape]. rewrite <- app_assoc, scanstring_escape_char, IH.
  reflexivity.
Qed.

Lemma render_arr (l : list json) :
  render (JArr l) = "["%char :: render_elems l ++ ["]"%char].
Proof. reflexivity. Qed.

Lemma render_obj (l : list (string * json)) :
  render (JObj l) = "{"%char :: render_members l ++ ["}"%char].
Proof. reflexivity. Qed.

Lemma size_arr (l : list json) : size (JArr l) = S (sizes l).
Proof. reflexivity. Qed.

Lemma size_obj (l : list (string * json)) :
  size (JObj l) = S (member_sizes l).
Proof. reflexivity. Qed.

Lemma render_int_head (z : Z) :
  exists c r, render_int z = c :: r /\
    In c ["-"; "0"; "1"; "2"; "3"; "4"; "5"; "6"; "7"; "8"; "9"]%char.
Proof.
  destruct z as [|p|p]; unfold render_int; cbn [Z.to_int].
  - exists "0"%char, []. split; [reflexivity|]. cbn. tauto.
  - pose proof (to_uint_head p) as Hh.
    destruct (Pos.to_uint p); try contradiction;
      cbn [digits]; eexists _, _; (split; [reflexivity|]); cbn; tauto.
  - exists "-"%char, (digits (Pos.to_uint p)).
    split; [reflexivity|]. cbn. tauto.
Qed.

Lemma starts_render (j : json) : starts (render j).
Proof.
  destruct j as [| [] | z | s | l | l]; try (split; reflexivity).
  destruct (render_int_head z) as (c & r & Hr & Hc).
  cbn [render]. rewrite Hr. cbn in Hc.
  repeat (destruct Hc as [<- | Hc]; [split; reflexivity|]). contradiction.
Qed.

Lemma starts_app (t rest : text) : starts t -> starts (t ++ rest).
Proof. destruct t; [contradiction | intros H; exact H]. Qed.

Lemma starts_inv (t : text) :
  starts t ->
  exists c r, t = c :: r /\ is_ws c = false /\ Ascii.eqb c "]" = false.
Proof.
  destruct t as [|c r]; [contradiction|]. intros [H1 H2]. eauto.
Qed.

Lemma skip_ws_starts (t : text) : starts t -> skip_ws t = t.
Proof.
  destruct t as [|c t]; [contradiction|]. cbn. intros [-> _]. reflexivity.
Qed.

Lemma skip_ws_space (t : text) :
  starts t -> skip_ws (" "%char :: t) = t.
Proof.
  intros H. cbn [skip_ws]. change (is_ws " ") with true.
  cbv iota. apply skip_ws_starts, H.
Qed.

Lemma starts_members (l : list (string * json)) (rest : text) :
  l <> [] ->
  exists r, render_members l ++ rest = dquote :: r.
Proof.
  destruct l as [|[k v] l]; [congruence|]. intros _.
  destruct l; cbn [render_members]; unfold render_str;
    eexists; cbn [app]; reflexivity.
Qed.

Lemma starts_elems (l : list json) : l <> [] -> starts (render_elems l).
Proof.
  destruct l as [|x l]; [congruence|]. intros _.
  destruct l; cbn [render_elems]; [|apply starts_app]; apply starts_render.
Qed.

(** A number is read by [scan_int]: its first character is none of those
    that open another kind of value. *)
Lemma scan_once_int (fuel : nat) (z : Z) (rest : text) :
  scan_once (S fuel) (render_int z ++ rest) =
  match scan_int (render_int z ++ rest) with
  | Some (z, r1) => Some (JInt z, r1)
  | None => None
  end.
Proof.
  destruct (render_int_head z) as (c & r & Hr & Hc). rewrite Hr.
  cbn in Hc.
  repeat (destruct Hc as [<- | Hc]; [reflexivity|]). contradiction.
Qed.

Lemma parse_object_S (fuel : nat) (s : text) :
  parse_object (S fuel) s =
  match scan_member fuel s with
  | Some (k, v, r3) =>
      match skip_ws r3 with
      | c3 :: r4 =>
          if Ascii.eqb c3 "}" then Some ([(k, v)], r4)
          else if Ascii.eqb c3 "," then
            match parse_object fuel (skip_ws r4) with
            | Some (kvs, r5) => Some ((k, v) :: kvs, r5)
            | None => None
            end
          else None
      | [] => None
      end
  | None => None
  end.
Proof.
  unfold scan_member. destruct s as [|c r]; [reflexivity|].
  cbn [parse_object]. destruct (Ascii.eqb c dquote); [|reflexivity].
  destruct (scanstring r) as [[k r1]|]; [|reflexivity].
  destruct (skip_ws r1) as [|c1 r2]; [reflexivity|].
  destruct (Ascii.eqb c1 ":"); [|reflexivity].
  destruct (scan_once fuel (skip_ws r2)) as [[v r3]|]; reflexivity.
Qed.

(** Decoding the text of a document gives the document back, whatever
    text follows it. *)
Lemma scan_render (fuel : nat) :
  (forall j rest, (size j <= fuel)%nat -> no_digit rest ->
     scan_once fuel (render j ++ rest) = Some (j, rest)) /\
  (forall l rest, l <> [] -> (sizes l <= fuel)%nat ->
     parse_array fuel (render_elems l ++ "]"%char :: rest) = Some (l, rest)) /\
  (forall l rest, l <> [] -> (member_sizes l <= fuel)%nat ->
     parse_object fuel (render_members l ++ "}"%char :: rest)
     = Some (l, rest)).
Proof.
  induction fuel as [|fuel (IHv & IHa & IHo)].
  - split; [|split].
    + intros j rest H. destruct j; cbn in H; lia.
    + intros [|x l] rest Hne H; [congruence | cbn in H; lia].
    + intros [|[k v] l] rest Hne H; [congruence | cbn in H; lia].
  - split; [|split].
    + intros j rest Hsz Hrest. destruct j as [| [] | z | s | l | l].
      * reflexivity.
      * reflexivity.
      * reflexivity.
      * cbn [render]. rewrite scan_once_int, scan_int_render by assumption.
        reflexivity.
      * cbn [render]. unfold render_str. cbn [app]. rewrite <- app_assoc.
        cbn [app scan_once]. change (Ascii.eqb dquote dquote) with true.
        cbv iota. rewrite scanstring_escape. reflexivity.
      * rewrite render_arr. rewrite size_arr in Hsz.
        cbn [app]. rewrite <- app_assoc. cbn [app scan_once].
        change (Ascii.eqb "[" dquote) with false.
        change (Ascii.eqb "[" "{") with false.
        change (Ascii.eqb "[" "[") with true. cbv iota.
        destruct l as [|x l]; [reflexivity|].
        assert (Hst : starts (render_elems (x :: l) ++ "]"%char :: rest))
          by (apply starts_app, starts_elems; congruence).
        rewrite (skip_ws_starts _ Hst).
        destruct (starts_inv _ Hst) as (c & r & E & _ & Hc).
        rewrite E, Hc, <- E. rewrite IHa; [reflexivity | congruence | lia].
      * rewrite render_obj. rewrite size_obj in Hsz.
        cbn [app]. rewrite <- app_assoc. cbn [app scan_once].
        change (Ascii.eqb "{" dquote) with false.
        change (Ascii.eqb "{" "{") with true. cbv iota.
        destruct l as [|kv l]; [reflexivity|].
        destruct (starts_members (kv :: l) ("}"%char :: rest)) as (r & E);
          [congruence|].
        rewrite E. cbn [skip_ws]. change (is_ws dquote) with false.
        cbv iota. change (Ascii.eqb dquote "}") with false. cbv iota.
        rewrite <- E. rewrite IHo; [reflexivity | congruence | lia].
    + intros [|x l] rest Hne Hsz; [congruence|]. cbn [sizes] in Hsz.
      cbn [parse_array]. destruct l as [|y l].
      * cbn [render_elems]. rewrite IHv; [|lia|reflexivity]. reflexivity.
      * change (render_elems (x :: y :: l))
          with (render x ++ comma ++ render_elems (y :: l)).
        rewrite <- !app_assoc. rewrite IHv; [|lia|reflexivity].
        cbn [comma app skip_ws]. change (is_ws ",") with false. cbv iota.
        change (Ascii.eqb "," "]") with false.
        change (Ascii.eqb "," ",") with true. cbv iota.
        rewrite skip_ws_space
          by (apply starts_app, starts_elems; congruence).
        rewrite IHa; [reflexivity | congruence | cbn [sizes] in *; lia].
    + intros [|[k v] l] rest Hne Hsz; [congruence|].
      cbn [member_sizes] in Hsz. rewrite parse_object_S.
      assert (Hhead : forall tail, no_digit tail ->
        scan_member fuel (render_str k ++ colon ++ render v ++ tail)
        = Some (k, v, tail)).
      { intros tail Htail. unfold scan_member, render_str. cbn [app].
        rewrite <- app_assoc. cbn [app].
        change (Ascii.eqb dquote dquote) with true. cbv iota.
        rewrite scanstring_escape. cbn [colon app skip_ws].
        change (is_ws ":") with false. cbv iota.
        change (Ascii.eqb ":" ":") with true. cbv iota.
        rewrite skip_ws_space by (apply starts_app, starts_render).
        rewrite IHv; [reflexivity | lia | assumption]. }
      destruct l as [|kv l].
      * cbn [render_members]. rewrite <- !app_assoc.
        rewrite Hhead by reflexivity. reflexivity.
      * change (render_members ((k, v) :: kv :: l))
          with (render_str k ++ colon ++ render v ++ comma
                ++ render_members (kv :: l)).
        rewrite <- !app_assoc. rewrite Hhead by reflexivity.
        destruct (starts_members (kv :: l) ("}"%char :: rest)) as (r' & E);
          [congruence|].
        rewrite E.
        change (skip_ws (comma ++ dquote :: r'))
          with (","%char :: " "%char :: dquote :: r').
        cbv iota. change (Ascii.eqb "," "}") with false.
        change (Ascii.eqb "," ",") with true. cbv iota.
        change (skip_ws (" "%char :: dquote :: r')) with (dquote :: r').
        rewrite <- E.
        rewrite IHo; [reflexivity | congruence | cbn [member_sizes] in *; lia].
Qed.

Lemma length_render_str (k : string) : (2 <= length (render_str k))%nat.
Proof.
  unfold render_str. cbn [length]. rewrite length_app. cbn [length]. lia.
Qed.

(** The text of a document is at least as long as the fuel it takes. *)
Lemma size_length (n : nat) :
  (forall j, (size j <= n)%nat -> (size j <= length (render j))%nat) /\
  (forall l, (sizes l <= n)%nat ->
     (sizes l <= S (length (render_elems l)))%nat) /\
  (forall l, (member_sizes l <= n)%nat ->
     (member_sizes l <= S (length (render_members l)))%nat).
Proof.
  induction n as [|n (IHv & IHa & IHo)].
  - split; [|split].
    + intros j H. destruct j; cbn in H; lia.
    + intros [|x l] H; cbn in *; lia.
    + intros [|[k v] l] H; cbn in *; lia.
  - split; [|split].
    + intros j Hsz. destruct j as [| [] | z | s | l | l];
        try (cbn; lia).
      * destruct (render_int_head z) as (c & r & Hr & _).
        cbn [render size]. rewrite Hr. cbn [length]. lia.
      * rewrite render_arr, size_arr in *. cbn [length].
        rewrite length_app. cbn [length].
        specialize (IHa l). lia.
      * rewrite render_obj, size_obj in *. cbn [length].
        rewrite length_app. cbn [length].
        specialize (IHo l). lia.
    + intros [|x l] Hsz; [cbn; lia|]. cbn [sizes] in *.
      specialize (IHv x). specialize (IHa l).
      destruct l as [|y l].
      * cbn [render_elems sizes]. lia.
      * change (render_elems (x :: y :: l))
          with (render x ++ comma ++ render_elems (y :: l)).
        rewrite !length_app. cbn [comma length]. lia.
    + intros [|[k v] l] Hsz; [cbn; lia|]. cbn [member_sizes] in *.
      specialize (IHv v). specialize (IHo l).
      pose proof (length_render_str k).
      destruct l as [|y l].
      * cbn [render_members member_sizes].
        rewrite !length_app. cbn [colon length]. lia.
      * change (render_members ((k, v) :: y :: l))
          with (render_str k ++ colon ++ render v ++ comma
                ++ render_members (y :: l)).
        rewrite !length_app. cbn [comma colon length]. lia.
Qed.

(** [decode] inverts [render]. *)
Lemma decode_render (j : json) : decode (render j) = Some j.
Proof.
  unfold decode. rewrite skip_ws_starts by apply starts_render.
  rewrite <- (app_nil_r (render j)) at 2.
  destruct (scan_render (length (render j))) as (Hv & _).
  rewrite Hv; [reflexivity | | exact I].
  destruct (size_length (size j)) as (Hs & _). apply Hs. lia.
Qed.

(** What [loads] makes of the text that [dumps] wrote. *)
Lemma loads_dumps_json (x : pyval) (j : json) :
  to_json x = Ok j ->
  exists s, dumps x = Ok (PyStr s) /\ loads (PyStr s) = Ok (of_json j).
Proof.
  intros Hj. exists (string_of_list_ascii (render j)). unfold dumps, loads.
  rewrite Hj. cbn [bind]. split; [reflexivity|].
  rewrite list_ascii_of_string_of_list_ascii, decode_render. reflexivity.
Qed.

(** *** Values that come back as they were *)

Lemma to_json_list (l : list pyval) :
  to_json (PyList l) = try! js := to_json_elems l in Ok (JArr js).
Proof. reflexivity. Qed.

Lemma to_json_tuple (l : list pyval) :
  to_json (PyTuple l) = try! js := to_json_elems l in Ok (JArr js).
Proof. reflexivity. Qed.

Lemma to_json_dict (d : list (pyval * pyval)) :
  to_json (PyDict d) = try! ms := to_json_members d in Ok (JObj ms).
Proof. reflexivity. Qed.

Lemma of_json_obj (l : list (string * json)) :
  of_json (JObj l) = PyDict (build l []).
Proof. reflexivity. Qed.

Lemma build_fresh (ms : list (string * json)) (acc : list (pyval * pyval)) :
  distinct (map fst (acc ++ map of_member ms)) = true ->
  build ms acc = acc ++ map of_member ms.
Proof.
  revert acc. induction ms as [|[k j] ms IH]; intros acc Hd.
  - cbn. rewrite app_nil_r. reflexivity.
  - cbn [build map]. cbn [map] in Hd.
    rewrite dict_set_fresh.
    + rewrite IH; rewrite <- app_assoc; [reflexivity | exact Hd].
    + rewrite map_app in Hd. apply (distinct_app _ _ _ Hd).
Qed.

Lemma native_to_json (x : pyval) :
  native x = true -> exists j, to_json x = Ok j /\ of_json j = x.
Proof.
  induction x as [| b | z | s | l IH | l IH | d IH] using pyval_ind';
    intros Hn; try (eexists; split; reflexivity); try discriminate.
  - rewrite native_list in Hn. rewrite to_json_list.
    assert (exists js, to_json_elems l = Ok js /\ map of_json js = l)
      as (js & Hjs & Hl).
    { induction IH as [|x l Hx _ IHl]; [exists []; split; reflexivity|].
      cbn [all_native] in Hn. apply andb_prop in Hn as [Hnx Hnl].
      destruct (Hx Hnx) as (j & Hj & Hx').
      destruct (IHl Hnl) as (js & Hjs & Hl').
      exists (j :: js). cbn [to_json_elems]. rewrite Hj, Hjs.
      split; [reflexivity|]. cbn [map]. congruence. }
    rewrite Hjs. exists (JArr js). split; [reflexivity|].
    cbn [of_json]. congruence.
  - rewrite native_dict in Hn. rewrite to_json_dict.
    apply andb_prop in Hn as [Hn Hv]. apply andb_prop in Hn as [Hs Hd].
    assert (exists ms, to_json_members d = Ok ms /\ map of_member ms = d)
      as (ms & Hms & Hl).
    { clear Hd.
      induction IH as [|[k v] d [_ Hx] _ IHd]; [exists []; split; reflexivity|].
      cbn [values_native] in Hv. apply andb_prop in Hv as [Hnv Hnd].
      cbn [map forallb fst] in Hs. apply andb_prop in Hs as [Hk Hks].
      cbn [snd] in Hx. destruct (Hx Hnv) as (j & Hj & Hx').
      destruct (IHd Hks Hnd) as (ms & Hms & Hl').
      destruct k; try discriminate.
      exists ((s, j) :: ms). cbn [to_json_members key_str bind].
      rewrite Hj, Hms. split; [reflexivity|].
      cbn [map]. unfold of_member at 1. cbn [fst snd]. congruence. }
    rewrite Hms. exists (JObj ms). split; [reflexivity|].
    rewrite of_json_obj, build_fresh; cbn [app]; [congruence|].
    rewrite Hl. exact Hd.
Qed.

(** A native value comes back from the text [dumps] wrote for it. *)
Lemma loads_dumps_native (x : pyval) :
  native x = true ->
  exists s, dumps x = Ok (PyStr s) /\ loads (PyStr s) = Ok x.
Proof.
  intros Hn. destruct (native_to_json x Hn) as (j & Hj & Hx).
  destruct (loads_dumps_json x j Hj) as (s & Hd & Hl).
  exists s. split; [exact Hd | congruence].
Qed.

(** *** The envelope *)

Lemma to_json_envelope (x : pyval) :
  to_json (envelope x) = try! j := to_json x in Ok (JObj [("data", j)]).
Proof.
  unfold envelope. rewrite to_json_dict. cbn [to_json_members key_str bind].
  destruct (to_json x); reflexivity.
Qed.

(** What the getters make of an envelope that a setter wrote. *)
Lemma unwrap_envelope (x : pyval) (j : json) :
  to_json x = Ok j ->
  exists s, dumps (envelope x) = Ok (PyStr s) /\
    (try! e := loads (PyStr s) in Py.getitem e (PyStr "data"))
    = Ok (of_json j).
Proof.
  intros Hj.
  destruct (loads_dumps_json (envelope x) (JObj [("data", j)])) as (s & Hd & Hl).
  { rewrite to_json_envelope, Hj. reflexivity. }
  exists s. split; [exact Hd|]. rewrite Hl. reflexivity.
Qed.

Lemma dumps_envelope_raises (x : pyval) (e : exn) :
  to_json x = Raise e -> dumps (envelope x) = Raise e.
Proof.
  intros Hj. unfold dumps. rewrite to_json_envelope, Hj. reflexivity.
Qed.

End JsonFacts.

(** ** The transport primitives *)

Lemma conversation_with (s sc : string) (f : Conversation -> Conversation)
    (w : World) :
  conversation (with_conversation s f w) sc =
  if decide (s = sc) then f (conversation w s) else conversation w sc.
Proof.
  unfold conversation, with_conversation. cbn [conv].
  destruct (decide (s = sc)) as [->|Hne].
  - apply lookup_total_insert_eq.
  - apply lookup_total_insert_ne, Hne.
Qed.

Lemma conversation_emit (e : event) (w : World) (sc : string) :
  conversation (emit e w) sc = conversation w sc.
Proof. reflexivity. Qed.

Lemma changed_ne_available : changed_state <> available.
Proof. discriminate. Qed.

Lemma changed_ne_connected : changed_state <> connected.
Proof. discriminate. Qed.

Lemma available_ne_connected : available <> connected.
Proof. discriminate. Qed.

(** Unfolds the code of a handler down to the updates of the relation. *)
Ltac run_handler :=
  cbv [exec outcome
       Provides.joined Provides.changed Provides.departed
       Provides.update_status Provides.clear_changed
       Provides._authentication_data
       Requires.joined Requires.changed Requires.departed
       Requires.update_status Requires.clear_changed
       Requires._name Requires._configuration_data Requires.name
       bindM ret log get_remote set_state remove_state fst snd].

Ltac split_conversation :=
  repeat first
    [ rewrite conversation_emit
    | rewrite conversation_with
    | match goal with
      | |- context [decide (?a = ?b)] =>
          destruct (decide (a = b)); subst; try congruence
      | |- context [if ?b then _ else _] => destruct b eqn:?
      end ];
  cbn [states local remote peer].

Ltac same :=
  match goal with
  | |- ?a = ?b => constr_eq a b; exact eq_refl
  end.

Ltac pick_effect :=
  unfold flag_effect;
  first
    [ left; same
    | right; left; same
    | do 2 right; left; same
    | do 3 right; left; same
    | do 4 right; left; split; [same | set_solver]
    | do 5 right; split; [same | set_solver] ].

Ltac flag_solver :=
  pose proof changed_ne_available;
  pose proof changed_ne_connected;
  pose proof available_ne_connected;
  set_solver.

(** *** Frame rules for the combinators *)

Section Preserves.
Context (P : World -> Prop).

Lemma preserves_ret {A} (a : A) : preserves P (ret a).
Proof. intros w H. exact H. Qed.

Lemma preserves_lift {A} (r : result A) : preserves P (lift r).
Proof. intros w H. exact H. Qed.

Lemma preserves_bind {A B} (m : M A) (k : A -> M B) :
  preserves P m -> (forall a, preserves P (k a)) ->
  preserves P (bindM m k).
Proof.
  intros Hm Hk w H. specialize (Hm w H). unfold exec, bindM in *.
  destruct (m w) as [w1 [a|e]]; cbn [fst] in *; [|exact Hm].
  apply (Hk a w1 Hm).
Qed.

Lemma preserves_try {A} (body handler : M A) :
  preserves P body -> preserves P handler ->
  preserves P (try_except_ValueError body handler).
Proof.
  intros Hb Hh w H. specialize (Hb w H).
  unfold exec, try_except_ValueError in *.
  destruct (body w) as [w1 [a|e]]; cbn [fst] in *; [exact Hb|].
  destruct (is_ValueError e); [apply (Hh w1 Hb) | exact Hb].
Qed.

Lemma preserves_for_each {A} (l : list A) (body : A -> M unit) :
  (forall x, preserves P (body x)) -> preserves P (for_each l body).
Proof.
  intros Hb. induction l as [|x l IH]; cbn [for_each].
  - apply preserves_ret.
  - apply preserves_bind; [apply Hb | intros _; exact IH].
Qed.

Lemma preserves_if {A} (b : bool) (m1 m2 : M A) :
  preserves P m1 -> preserves P m2 -> preserves P (if b then m1 else m2).
Proof. destruct b; auto. Qed.

Lemma preserves_first_scope : preserves P first_scope.
Proof.
  intros w H. unfold exec, first_scope. destruct (conversations w); exact H.
Qed.

Lemma preserves_get_conversations : preserves P get_conversations.
Proof. intros w H. exact H. Qed.

Lemma preserves_get_local (key : string) (d : pyval) (scope : string) :
  preserves P (get_local key d scope).
Proof.
  intros w H. unfold exec, get_local. destruct (decide _); exact H.
Qed.

Lemma preserves_get_remote (key self : string) :
  preserves P (get_remote key self).
Proof. intros w H. exact H. Qed.

End Preserves.

Create HintDb frame.
#[export] Hint Resolve preserves_ret preserves_lift preserves_try
  preserves_for_each preserves_if preserves_first_scope
  preserves_get_conversations preserves_get_local preserves_get_remote
  : frame.

(** Proves [preserves P m] for code [m] built from the combinators, given
    hints for the primitives that write. *)
Ltac frame :=
  repeat first
    [ progress eauto with frame
    | apply preserves_bind; [|intros ?]
    | apply preserves_if
    | apply preserves_try
    | apply preserves_for_each; intros ?
    | match goal with
      | |- preserves _ (match ?x with _ => _ end) => destruct x
      end ].

(** Writing local data, settings or a log line leaves the states of every
    conversation as they are. *)
Section StatesFrame.
Context (sc : string) (S : gset string).

Definition states_are (w : World) : Prop := states (conversation w sc) = S.

Lemma states_log (lvl : level) (msg : string) :
  preserves states_are (log lvl msg).
Proof. intros w H. exact H. Qed.

Lemma states_set_local (key : string) (v : pyval) (scope : string) :
  preserves states_are (set_local key v scope).
Proof.
  intros w H. unfold states_are, exec, set_local in *. cbn [fst].
  rewrite conversation_emit, conversation_with.
  destruct (decide (scope = sc)) as [->|]; cbn [states]; exact H.
Qed.

Lemma states_set_remote (key : string) (v : pyval) (scope : string) :
  preserves states_are (set_remote key v scope).
Proof.
  intros w H. unfold states_are, exec, set_remote in *. cbn [fst].
  rewrite conversation_emit, conversation_with.
  destruct (decide (scope = sc)) as [->|]; cbn [states]; exact H.
Qed.

End StatesFrame.

#[export] Hint Resolve states_log states_set_local states_set_remote : frame.

Lemma states_frame {A} (m : M A) (w : World) (sc : string) :
  (forall S, preserves (states_are sc S) m) ->
  states (conversation (exec m w) sc) = states (conversation w sc).
Proof. intros H. apply (H _ w). reflexivity. Qed.

(** ** The states of a conversation *)

Lemma states_env_step (e : env) (w : World) (sc : string) :
  states (conversation (env_step e w) sc) = states (conversation w sc).
Proof.
  destruct e as [scope key value | scopes failing]; cbn [env_step].
  - rewrite conversation_with. destruct (decide _) as [->|]; reflexivity.
  - reflexivity.
Qed.

Lemma plugin_flag_effect (s : PluginEndpoint.step) (w : World) (sc : string) :
  flag_effect (states (conversation w sc))
    (states (conversation (PluginEndpoint.do_step s w) sc))
    (s = PluginEndpoint.Call (PluginEndpoint.Departed sc))
    (s = PluginEndpoint.Call (PluginEndpoint.ClearChanged sc)).
Proof.
  destruct s as [c | e]; cbn [PluginEndpoint.do_step].
  - destruct c; cbn [PluginEndpoint.run].
    + run_handler. split_conversation; pick_effect.
    + run_handler. split_conversation; pick_effect.
    + run_handler. split_conversation; pick_effect.
    + run_handler. split_conversation; pick_effect.
    + run_handler. split_conversation; pick_effect.
    + left. apply states_frame. intros S. unfold Provides.name. frame.
    + left. apply states_frame. intros S. unfold Provides.set_name. frame.
    + left. apply states_frame. intros S.
      unfold Provides.authentication_data, Provides._authentication_data.
      frame.
    + left. apply states_frame. intros S.
      unfold Provides.configuration_data. frame.
    + left. apply states_frame. intros S.
      unfold Provides.set_configuration_data. frame.
  - left. apply states_env_step.
Qed.

Lemma principal_flag_effect (s : PrincipalEndpoint.step) (w : World)
    (sc : string) :
  flag_effect (states (conversation w sc))
    (states (conversation (PrincipalEndpoint.do_step s w) sc))
    (s = PrincipalEndpoint.Call (PrincipalEndpoint.Departed sc))
    (s = PrincipalEndpoint.Call (PrincipalEndpoint.ClearChanged sc)).
Proof.
  destruct s as [c | e]; cbn [PrincipalEndpoint.do_step].
  - destruct c; cbn [PrincipalEndpoint.run].
    + run_handler. split_conversation; pick_effect.
    + run_handler. split_conversation; pick_effect.
    + run_handler. split_conversation; pick_effect.
    + run_handler. split_conversation; pick_effect.
    + run_handler. split_conversation; pick_effect.
    + left. reflexivity.
    + left. apply states_frame. intros S.
      unfold Requires.authentication_data. frame.
    + left. apply states_frame. intros S.
      unfold Requires.set_authentication_data,
        Requires.send_authentication_data. frame.
    + left. apply states_frame. intros S.
      unfold Requires.configuration_data, Requires._configuration_data.
      frame.
  - left. apply states_env_step.
Qed.

Lemma with_conversation_fuse (s : string) (f g : Conversation -> Conversation)
    (w : World) :
  with_conversation s g (with_conversation s f w)
  = with_conversation s (fun c => g (f c)) w.
Proof.
  unfold with_conversation at 1 3. rewrite conversation_with.
  destruct (decide (s = s)); [|congruence].
  cbn [conversations unresolved conv journal with_conversation].
  f_equal. apply insert_insert_eq.
Qed.

Lemma with_conversation_emit (s : string) (f : Conversation -> Conversation)
    (e : event) (w : World) :
  with_conversation s f (emit e w) = emit e (with_conversation s f w).
Proof. reflexivity. Qed.

Lemma relation_of_emit (e : event) (w : World) :
  relation_of (emit e w) = relation_of w.
Proof. reflexivity. Qed.

Lemma relation_of_with (s : string) (f g : Conversation -> Conversation)
    (w : World) :
  f (conversation w s) = g (conversation w s) ->
  relation_of (with_conversation s f w) = relation_of (with_conversation s g w).
Proof. intros H. unfold relation_of, with_conversation. cbn. rewrite H. reflexivity. Qed.

(** ** Running code step by step *)

Lemma exec_bind {A B} (m : M A) (k : A -> M B) (w : World) :
  exec (bindM m k) w =
  match outcome m w with
  | Ok a => exec (k a) (exec m w)
  | Raise _ => exec m w
  end.
Proof. unfold exec, outcome, bindM. destruct (m w) as [w' [a|e]]; reflexivity. Qed.

Lemma outcome_bind {A B} (m : M A) (k : A -> M B) (w : World) :
  outcome (bindM m k) w =
  match outcome m w with
  | Ok a => outcome (k a) (exec m w)
  | Raise e => Raise e
  end.
Proof. unfold exec, outcome, bindM. destruct (m w) as [w' [a|e]]; reflexivity. Qed.

Lemma exec_ret {A} (a : A) (w : World) : exec (ret a) w = w.
Proof. reflexivity. Qed.

Lemma outcome_ret {A} (a : A) (w : World) : outcome (ret a) w = Ok a.
Proof. reflexivity. Qed.

Lemma exec_lift {A} (r : result A) (w : World) : exec (lift r) w = w.
Proof. reflexivity. Qed.

Lemma outcome_lift {A} (r : result A) (w : World) : outcome (lift r) w = r.
Proof. reflexivity. Qed.

Lemma exec_log (lvl : level) (msg : string) (w : World) :
  exec (log lvl msg) w = emit (Log lvl msg) w.
Proof. reflexivity. Qed.

Lemma outcome_log (lvl : level) (msg : string) (w : World) :
  outcome (log lvl msg) w = Ok tt.
Proof. reflexivity. Qed.

Lemma exec_get_conversations (w : World) : exec get_conversations w = w.
Proof. reflexivity. Qed.

Lemma outcome_get_conversations (w : World) :
  outcome get_conversations w = Ok (conversations w).
Proof. reflexivity. Qed.

Lemma exec_first_scope (w : World) : exec first_scope w = w.
Proof. unfold exec, first_scope. destruct (conversations w); reflexivity. Qed.

Lemma outcome_first_scope (w : World) :
  outcome first_scope w =
  match conversations w with
  | [] => Raise IndexError
  | scope :: _ => Ok scope
  end.
Proof. unfold outcome, first_scope. destruct (conversations w); reflexivity. Qed.

Lemma exec_get_local (key : string) (d : pyval) (scope : string) (w : World) :
  exec (get_local key d scope) w = w.
Proof. unfold exec, get_local. destruct (decide _); reflexivity. Qed.

Lemma outcome_get_local (key : string) (d : pyval) (scope : string)
    (w : World) :
  outcome (get_local key d scope) w =
  if decide (scope ∈ unresolved w) then Raise ValueError
  else Ok (dict_default d (local (conversation w scope) !! key)).
Proof. unfold outcome, get_local. destruct (decide _); reflexivity. Qed.

Lemma exec_get_remote (key self : string) (w : World) :
  exec (get_remote key self) w = w.
Proof. reflexivity. Qed.

Lemma outcome_get_remote (key self : string) (w : World) :
  outcome (get_remote key self) w =
  Ok (dict_default PyNone (peer (conversation w self) !! key)).
Proof. reflexivity. Qed.

Lemma outcome_set_local (key : string) (v : pyval) (scope : string)
    (w : World) :
  outcome (set_local key v scope) w = Ok tt.
Proof. reflexivity. Qed.

Lemma outcome_set_remote (key : string) (v : pyval) (scope : string)
    (w : World) :
  outcome (set_remote key v scope) w = Ok tt.
Proof. reflexivity. Qed.

(** *** What the two writes change *)

Lemma local_set_local (key : string) (v : pyval) (scope sc : string)
    (w : World) :
  local (conversation (exec (set_local key v scope) w) sc) =
  if decide (scope = sc) then <[key := v]> (local (conversation w scope))
  else local (conversation w sc).
Proof.
  unfold exec, set_local. cbn [fst].
  rewrite conversation_emit, conversation_with.
  destruct (decide (scope = sc)); reflexivity.
Qed.

Lemma remote_set_local (key : string) (v : pyval) (scope sc : string)
    (w : World) :
  remote (conversation (exec (set_local key v scope) w) sc) =
  remote (conversation w sc).
Proof.
  unfold exec, set_local. cbn [fst].
  rewrite conversation_emit, conversation_with.
  destruct (decide (scope = sc)) as [->|]; reflexivity.
Qed.

Lemma local_set_remote (key : string) (v : pyval) (scope sc : string)
    (w : World) :
  local (conversation (exec (set_remote key v scope) w) sc) =
  local (conversation w sc).
Proof.
  unfold exec, set_remote. cbn [fst].
  rewrite conversation_emit, conversation_with.
  destruct (decide (scope = sc)) as [->|]; reflexivity.
Qed.

Lemma remote_set_remote (key : string) (v : pyval) (scope sc : string)
    (w : World) :
  remote (conversation (exec (set_remote key v scope) w) sc) =
  if decide (scope = sc) then <[key := v]> (remote (conversation w scope))
  else remote (conversation w sc).
Proof.
  unfold exec, set_remote. cbn [fst].
  rewrite conversation_emit, conversation_with.
  destruct (decide (scope = sc)); reflexivity.
Qed.

Lemma journal_set_local (key : string) (v : pyval) (scope : string)
    (w : World) :
  journal (exec (set_local key v scope) w)
  = journal w ++ [SetLocal scope key v].
Proof. reflexivity. Qed.

Lemma journal_set_remote (key : string) (v : pyval) (scope : string)
    (w : World) :
  journal (exec (set_remote key v scope) w)
  = journal w ++ [SetRemote scope key v].
Proof. reflexivity. Qed.

Lemma conversations_set_local (key : string) (v : pyval) (scope : string)
    (w : World) :
  conversations (exec (set_local key v scope) w) = conversations w.
Proof. reflexivity. Qed.

Lemma conversations_set_remote (key : string) (v : pyval) (scope : string)
    (w : World) :
  conversations (exec (set_remote key v scope) w) = conversations w.
Proof. reflexivity. Qed.

Lemma unresolved_set_local (key : string) (v : pyval) (scope : string)
    (w : World) :
  unresolved (exec (set_local key v scope) w) = unresolved w.
Proof. reflexivity. Qed.

Lemma unresolved_set_remote (key : string) (v : pyval) (scope : string)
    (w : World) :
  unresolved (exec (set_remote key v scope) w) = unresolved w.
Proof. reflexivity. Qed.

Create Rewrite HintDb run.
Create Rewrite HintDb look.
#[export] Hint Rewrite @exec_bind @outcome_bind @exec_ret @outcome_ret
  @exec_lift @outcome_lift exec_log outcome_log exec_get_conversations
  outcome_get_conversations exec_first_scope outcome_first_scope
  exec_get_local outcome_get_local exec_get_remote outcome_get_remote
  outcome_set_local outcome_set_remote : run.

#[export] Hint Rewrite local_set_local remote_set_local local_set_remote
  remote_set_remote journal_set_local journal_set_remote
  conversations_set_local conversations_set_remote unresolved_set_local
  unresolved_set_remote conversation_emit : look.
(** ** The comparison of the setter *)

Module SetterFacts.
Import PySpec PyFacts.

Lemma forallb_id_map {A} (f : A -> bool) (l : list A) :
  forallb id (map f l) = forallb f l.
Proof. induction l as [|a l IH]; cbn; [reflexivity|]. rewrite IH. reflexivity. Qed.

Lemma compare_items_found (a b : list (pyval * pyval)) :
  forallb (fun k => Py.contains b k) (map fst a) = true ->
  Requires.compare_items a (PyDict b) = Ok (map (item_found b) a).
Proof.
  induction a as [|[k v] a IH]; cbn [map forallb fst]; intros H;
    [reflexivity|].
  apply andb_prop in H as [Hk Ha].
  cbn [Requires.compare_items Py.getitem]. unfold Py.contains in Hk.
  unfold item_found at 1. cbn [fst snd].
  destruct (Py.dict_get b k) as [x|]; [|discriminate].
  cbn [bind]. rewrite (IH Ha). reflexivity.
Qed.

Lemma found_contained (a b : list (pyval * pyval)) :
  forallb (item_found b) a = true ->
  forallb (fun k => Py.contains b k) (map fst a) = true.
Proof.
  induction a as [|[k v] a IH]; cbn [map forallb fst]; intros H;
    [reflexivity|].
  apply andb_prop in H as [Hk Ha]. rewrite (IH Ha), andb_true_r.
  unfold item_found in Hk. unfold Py.contains. cbn [fst] in Hk.
  destruct (Py.dict_get b k); [reflexivity | discriminate].
Qed.

(** The test of the loop is [==] of the two dicts. *)
Lemma unchanged_eq (a b : list (pyval * pyval)) :
  Requires.unchanged (PyDict a) (PyDict b) = Ok (Py.eq (PyDict a) (PyDict b)).
Proof.
  unfold Requires.unchanged. cbn [Py.items bind]. rewrite eq_dict.
  unfold Requires.keys_eq.
  destruct (Nat.eqb (length a) (length b)); [|reflexivity].
  cbn [andb].
  destruct (forallb (fun k => Py.contains b k) (map fst a)) eqn:Hc.
  - rewrite (compare_items_found a b Hc). cbn [bind].
    rewrite forallb_id_map. reflexivity.
  - destruct (forallb (item_found b) a) eqn:Hf; [|reflexivity].
    rewrite (found_contained a b Hf) in Hc. discriminate.
Qed.

Lemma differs_eq (old value : list (pyval * pyval)) :
  differs old value <-> Py.eq (PyDict old) (PyDict value) = false.
Proof.
  rewrite eq_dict. unfold differs, Requires.keys_eq. split.
  - intros [H | (k & v & x & Hin & Hget & Hne)].
    + destruct (Nat.eqb (length old) (length value)); [|reflexivity].
      cbn [andb] in *.
      destruct (forallb (item_found value) old) eqn:Hf; [|reflexivity].
      rewrite (found_contained _ _ Hf) in H. discriminate.
    + apply andb_false_iff. right.
      destruct (forallb (item_found value) old) eqn:Hf; [|reflexivity].
      rewrite forallb_forall in Hf. specialize (Hf (k, v) Hin).
      unfold item_found in Hf. cbn [fst snd] in Hf. rewrite Hget in Hf.
      congruence.
  - intros H.
    destruct (Nat.eqb (length old) (length value)); [|left; reflexivity].
    cbn [andb] in *.
    destruct (forallb (fun k => Py.contains value k) (map fst old)) eqn:Hc;
      [|left; reflexivity].
    right. clear - H Hc.
    induction old as [|[k v] old IH]; [discriminate|].
    cbn [forallb map fst] in *. apply andb_prop in Hc as [Hk Hc].
    destruct (item_found value (k, v)) eqn:Hi.
    + destruct (IH H Hc) as (k' & v' & x & Hin & Hx).
      exists k', v', x. split; [right; exact Hin | exact Hx].
    + unfold item_found in Hi. unfold Py.contains in Hk. cbn [fst snd] in Hi.
      destruct (Py.dict_get value k) as [x|] eqn:Hg; [|discriminate].
      exists k, v, x. split; [left; reflexivity|]. split; [exact Hg | exact Hi].
Qed.

(** *** [==] on the values that JSON gives back *)

Lemma eq_str_sym (a b : pyval) :
  is_str a = true -> is_str b = true -> Py.eq a b = Py.eq b a.
Proof.
  destruct a, b; try discriminate. intros _ _. cbn [Py.eq].
  apply String.eqb_sym.
Qed.

Lemma eq_str_refl (a : pyval) : is_str a = true -> Py.eq a a = true.
Proof.
  destruct a; try discriminate. intros _. cbn [Py.eq]. apply String.eqb_refl.
Qed.

(** A dict with distinct keys gives for a key the value it lists. *)
Lemma dict_get_distinct (pre post : list (pyval * pyval)) (k v : pyval) :
  forallb is_str (map fst (pre ++ (k, v) :: post)) = true ->
  distinct (map fst (pre ++ (k, v) :: post)) = true ->
  Py.dict_get (pre ++ (k, v) :: post) k = Some v.
Proof.
  induction pre as [|[k' v'] pre IH]; cbn [app map fst forallb distinct];
    intros Hs Hd.
  - apply andb_prop in Hs as [Hk _]. cbn [Py.dict_get].
    rewrite (eq_str_refl k Hk). reflexivity.
  - apply andb_prop in Hs as [Hk' Hs]. apply andb_prop in Hd as [Hn Hd].
    cbn [Py.dict_get].
    assert (Hk : is_str k = true).
    { rewrite map_app, forallb_app in Hs. apply andb_prop in Hs as [_ Hs].
      cbn [map forallb fst] in Hs. apply andb_prop in Hs as [Hk _]. exact Hk. }
    rewrite (eq_str_sym k k' Hk Hk').
    apply negb_true_iff in Hn. rewrite map_app, existsb_app in Hn.
    apply orb_false_elim in Hn as [_ Hn]. cbn [map existsb fst] in Hn.
    apply orb_false_elim in Hn as [Hn _]. rewrite Hn. apply IH; assumption.
Qed.

Lemma eq_native_refl (x : pyval) : native x = true -> Py.eq x x = true.
Proof.
  induction x as [| b | z | s | l IH | l IH | d IH] using pyval_ind';
    intros Hn; try discriminate; try reflexivity.
  - cbn [Py.eq]. apply Bool.eqb_reflx.
  - cbn [Py.eq]. apply Z.eqb_refl.
  - cbn [Py.eq]. apply String.eqb_refl.
  - rewrite native_list in Hn.
    induction IH as [|x l Hx _ IHl]; [reflexivity|].
    cbn [all_native] in Hn. apply andb_prop in Hn as [Hnx Hnl].
    rewrite eq_list, (Hx Hnx). cbn [andb]. apply IHl, Hnl.
  - rewrite native_dict in Hn. apply andb_prop in Hn as [Hn Hv].
    apply andb_prop in Hn as [Hs Hd].
    rewrite eq_dict, Nat.eqb_refl. cbn [andb].
    apply forallb_forall. intros [k v] Hin.
    apply in_split in Hin as (pre & post & ->).
    unfold item_found. cbn [fst snd].
    rewrite (dict_get_distinct pre post k v Hs Hd).
    rewrite List.Forall_forall in IH.
    apply (proj2 (IH (k, v) (in_elt (k, v) pre post))). cbn [snd].
    clear - Hv. induction pre as [|[k' v'] pre IHp]; cbn [app values_native] in Hv;
      apply andb_prop in Hv as [H1 H2]; [exact H1 | apply IHp, H2].
Qed.

End SetterFacts.

(** ** The loop of the setter *)

Lemma exec_try {A} (body handler : M A) (w : World) :
  exec (try_except_ValueError body handler) w =
  match outcome body w with
  | Raise e => if is_ValueError e then exec handler (exec body w)
               else exec body w
  | Ok _ => exec body w
  end.
Proof.
  unfold exec, outcome, try_except_ValueError.
  destruct (body w) as [w' [a|e]]; [reflexivity|].
  cbn [fst snd]. destruct (is_ValueError e); reflexivity.
Qed.

Lemma outcome_try {A} (body handler : M A) (w : World) :
  outcome (try_except_ValueError body handler) w =
  match outcome body w with
  | Raise e => if is_ValueError e then outcome handler (exec body w)
               else Raise e
  | Ok a => Ok a
  end.
Proof.
  unfold exec, outcome, try_except_ValueError.
  destruct (body w) as [w' [a|e]]; [reflexivity|].
  cbn [fst snd]. destruct (is_ValueError e); reflexivity.
Qed.

#[export] Hint Rewrite @exec_try @outcome_try : run.

Lemma exec_if {A} (b : bool) (m1 m2 : M A) (w : World) :
  exec (if b then m1 else m2) w = if b then exec m1 w else exec m2 w.
Proof. destruct b; reflexivity. Qed.

Lemma outcome_if {A} (b : bool) (m1 m2 : M A) (w : World) :
  outcome (if b then m1 else m2) w = if b then outcome m1 w else outcome m2 w.
Proof. destruct b; reflexivity. Qed.

Section Loop.
Context (v : list (pyval * pyval)) (s : string).
Hypothesis Hdumps : Json.dumps (envelope (PyDict v)) = Ok (PyStr s).

Lemma send_one (w : World) (sc : string) :
  sc ∉ unresolved w -> well_stored w sc ->
  outcome (Requires.send_authentication_data (PyDict v) sc) w = Ok tt /\
  exec (Requires.send_authentication_data (PyDict v) sc) w =
  if passed_over w sc (PyDict v) then w
  else exec (set_remote "_authentication_data" (PyStr s) sc)
         (exec (set_local "_authentication_data" (PyStr s) sc) w).
Proof.
  intros Hu Hw. unfold Requires.send_authentication_data.
  autorewrite with run.
  destruct (decide (sc ∈ unresolved w)) as [|_]; [contradiction|].
  fold (stored w sc). unfold passed_over.
  destruct Hw as [Hn | (old & Hold)].
  - rewrite Hn. cbn [Py.is_None negb andb]. autorewrite with run.
    rewrite Hdumps. autorewrite with run. split; reflexivity.
  - assert (Hs : Py.is_None (stored w sc) = false).
    { destruct (stored w sc); try reflexivity. discriminate Hold. }
    rewrite Hs. cbn [negb andb]. autorewrite with run.
    fold (payload (stored w sc)). rewrite Hold.
    rewrite SetterFacts.unchanged_eq. autorewrite with run.
    destruct (Py.eq (PyDict old) (PyDict v)); autorewrite with run;
      [split; reflexivity|].
    rewrite Hdumps. autorewrite with run. split; reflexivity.
Qed.

Lemma stored_written (sc sc' : string) (w : World) :
  stored (written s sc w) sc' =
  if decide (sc = sc') then PyStr s else stored w sc'.
Proof.
  unfold stored, written. autorewrite with look.
  destruct (decide (sc = sc')) as [->|]; [|reflexivity].
  rewrite lookup_insert_eq. reflexivity.
Qed.

Lemma journal_written (sc : string) (w : World) :
  journal (written s sc w) = journal w ++ auth_writes sc s.
Proof.
  unfold written. autorewrite with look. rewrite <- app_assoc. reflexivity.
Qed.

Lemma passed_over_stored (w w' : World) (sc : string) (x : pyval) :
  stored w' sc = stored w sc -> passed_over w' sc x = passed_over w sc x.
Proof. unfold passed_over. intros ->. reflexivity. Qed.

Lemma send_all (scopes : list string) (w : World) :
  NoDup scopes -> unresolved w = ∅ ->
  (forall sc, sc ∈ scopes -> well_stored w sc) ->
  let run := for_each scopes (Requires.send_authentication_data (PyDict v)) in
  outcome run w = Ok tt /\
  journal (exec run w) =
    journal w ++
    flat_map (fun sc => if passed_over w sc (PyDict v) then []
                        else auth_writes sc s) scopes /\
  conversations (exec run w) = conversations w /\
  unresolved (exec run w) = unresolved w /\
  (forall sc,
     stored (exec run w) sc =
     if bool_decide (sc ∈ scopes) && negb (passed_over w sc (PyDict v))
     then PyStr s else stored w sc).
Proof.
  revert w. induction scopes as [|sc scopes IH]; intros w Hnd Hu Hw; cbv zeta.
  - cbn [for_each flat_map]. autorewrite with run. rewrite app_nil_r.
    repeat split.
  - apply NoDup_cons in Hnd as [Hnin Hnd].
    destruct (send_one w sc) as [Ho He];
      [rewrite Hu; set_solver | apply Hw; left |].
    set (body := Requires.send_authentication_data (PyDict v)) in *.
    set (w1 := exec (body sc) w) in *.
    assert (Hw1 : w1 = if passed_over w sc (PyDict v) then w else written s sc w)
      by exact He.
    assert (Hs1 : forall sc', sc' <> sc -> stored w1 sc' = stored w sc').
    { intros sc' Hne. rewrite Hw1.
      destruct (passed_over w sc (PyDict v)); [reflexivity|].
      rewrite stored_written. destruct (decide (sc = sc')); congruence. }
    assert (Hu1 : unresolved w1 = ∅).
    { rewrite Hw1. destruct (passed_over w sc (PyDict v)); exact Hu. }
    assert (Hc1 : conversations w1 = conversations w).
    { rewrite Hw1. destruct (passed_over w sc (PyDict v)); reflexivity. }
    assert (Hj1 : journal w1 = journal w ++
              if passed_over w sc (PyDict v) then [] else auth_writes sc s).
    { rewrite Hw1. destruct (passed_over w sc (PyDict v)).
      - rewrite app_nil_r. reflexivity.
      - apply journal_written. }
    assert (Hne : forall sc', sc' ∈ scopes -> sc' <> sc).
    { intros sc' Hin ->. contradiction. }
    destruct (IH w1 Hnd Hu1) as (Io & Ij & Ic & Iu & Is).
    { intros sc' Hin. unfold well_stored. rewrite (Hs1 sc' (Hne sc' Hin)).
      apply Hw. right. exact Hin. }
    cbn [for_each flat_map]. autorewrite with run. rewrite Ho. fold w1.
    split; [exact Io|]. split; [|split; [|split]].
    + rewrite Ij, Hj1, <- app_assoc. f_equal. f_equal.
      rewrite !flat_map_concat_map. f_equal. apply map_ext_in.
      intros sc' Hin. apply list_elem_of_In in Hin.
      rewrite (passed_over_stored w w1 sc' _ (Hs1 sc' (Hne sc' Hin))).
      reflexivity.
    + rewrite Ic. exact Hc1.
    + rewrite Iu, Hu1, Hu. reflexivity.
    + intros sc'. rewrite Is. destruct (decide (sc' = sc)) as [->|Hd].
      * rewrite (bool_decide_eq_false_2 _ Hnin). cbn [andb].
        rewrite bool_decide_eq_true_2 by left. cbn [andb].
        rewrite Hw1. destruct (passed_over w sc (PyDict v)); [reflexivity|].
        cbn [negb]. rewrite stored_written.
        destruct (decide (sc = sc)); congruence.
      * rewrite (passed_over_stored w w1 sc' _ (Hs1 sc' Hd)), (Hs1 sc' Hd).
        assert (Hb : bool_decide (sc' ∈ sc :: scopes)
                     = bool_decide (sc' ∈ scopes)).
        { apply bool_decide_ext. rewrite elem_of_cons. tauto. }
        rewrite Hb. reflexivity.
Qed.

End Loop.

(** ** The setter as a whole *)

Lemma stored_emit (e : event) (w : World) (sc : string) :
  stored (emit e w) sc = stored w sc.
Proof. reflexivity. Qed.

Lemma since_app (w w' : World) (evs : list event) :
  journal w' = journal w ++ evs -> since w w' = evs.
Proof. intros H. unfold since. rewrite H. apply drop_app_length. Qed.

Lemma set_authentication_data_runs (v : list (pyval * pyval)) (s : string)
    (w : World) :
  Json.dumps (envelope (PyDict v)) = Ok (PyStr s) ->
  NoDup (conversations w) -> unresolved w = ∅ ->
  (forall sc, sc ∈ conversations w -> well_stored w sc) ->
  let run := Requires.set_authentication_data (PyDict v) in
  outcome run w = Ok tt /\
  journal (exec run w) =
    journal w ++
    (setting_line :: (if mismatched v then [warning_line] else [])) ++
    setter_writes w (PyDict v) s /\
  conversations (exec run w) = conversations w /\
  unresolved (exec run w) = unresolved w /\
  (forall sc,
     stored (exec run w) sc =
     if bool_decide (sc ∈ conversations w) && negb (passed_over w sc (PyDict v))
     then PyStr s else stored w sc).
Proof.
  intros Hd Hnd Hu Hw. cbv zeta.
  assert (key : forall w0 evs,
            journal w0 = journal w ++ evs ->
            conversations w0 = conversations w ->
            unresolved w0 = unresolved w ->
            (forall sc, stored w0 sc = stored w sc) ->
            let run :=
              for_each (conversations w0)
                (Requires.send_authentication_data (PyDict v)) in
            outcome run w0 = Ok tt /\
            journal (exec run w0) =
              journal w ++ evs ++ setter_writes w (PyDict v) s /\
            conversations (exec run w0) = conversations w /\
            unresolved (exec run w0) = unresolved w /\
            (forall sc,
               stored (exec run w0) sc =
               if bool_decide (sc ∈ conversations w)
                  && negb (passed_over w sc (PyDict v))
               then PyStr s else stored w sc)).
  { intros w0 evs Hj Hc Hu0 Hs. cbv zeta.
    destruct (send_all v s Hd (conversations w0) w0)
      as (Io & Ij & Ic & Iu & Is).
    - rewrite Hc. exact Hnd.
    - rewrite Hu0. exact Hu.
    - intros sc Hin. unfold well_stored. rewrite Hs. apply Hw.
      rewrite <- Hc. exact Hin.
    - split; [exact Io|]. split; [|split; [|split]].
      + rewrite Ij, Hj, <- app_assoc. f_equal. f_equal.
        unfold setter_writes. rewrite Hc, !flat_map_concat_map. f_equal.
        apply map_ext. intros sc.
        rewrite (passed_over_stored w w0 sc _ (Hs sc)). reflexivity.
      + rewrite Ic. exact Hc.
      + rewrite Iu. exact Hu0.
      + intros sc. rewrite Is, Hc, Hs.
        rewrite (passed_over_stored w w0 sc _ (Hs sc)). reflexivity. }
  unfold Requires.set_authentication_data.
  autorewrite with run. cbn [Py.keys]. autorewrite with run.
  fold (mismatched v). destruct (mismatched v); autorewrite with run.
  - apply (key _ [setting_line; warning_line]); try reflexivity.
    unfold emit. cbn [journal]. rewrite <- app_assoc. reflexivity.
  - apply (key _ [setting_line]); reflexivity.
Qed.


(** *** The writes for one conversation *)




(** The test of the loop, in the words of the claim. *)
Lemma passed_over_outdated (w : World) (sc : string)
    (v : list (pyval * pyval)) :
  well_stored w sc ->
  (passed_over w sc (PyDict v) = false <-> outdated w sc v).
Proof.
  unfold well_stored, outdated, passed_over.
  intros [Hn | (old & Hold)].
  - rewrite Hn. cbn [Py.is_None negb andb]. split; [left; reflexivity | reflexivity].
  - assert (Hs : Py.is_None (stored w sc) = false).
    { destruct (stored w sc); try reflexivity. discriminate Hold. }
    rewrite Hs, Hold. cbn [negb andb]. rewrite <- SetterFacts.differs_eq.
    split.
    + intros H. right. exists old. split; [reflexivity | exact H].
    + intros [H | (old' & Ho & H)].
      * rewrite H in Hs. discriminate.
      * congruence.
Qed.


(** *** After a call of the setter *)

Lemma payload_dumps (v : pyval) (s : string) :
  PySpec.native v = true -> Json.dumps (envelope v) = Ok (PyStr s) ->
  payload (PyStr s) = Ok v.
Proof.
  intros Hn Hd. destruct (JsonFacts.native_to_json v Hn) as (j & Hj & Hv).
  destruct (JsonFacts.unwrap_envelope v j Hj) as (s' & Hd' & Hp).
  rewrite Hd in Hd'. injection Hd' as ->. unfold payload.
  rewrite Hp, Hv. reflexivity.
Qed.

Lemma passed_over_text (w : World) (sc : string) (s : string) (v x : pyval) :
  stored w sc = PyStr s -> payload (PyStr s) = Ok v ->
  passed_over w sc x = Py.eq v x.
Proof.
  intros Hs Hp. unfold passed_over. rewrite Hs, Hp. reflexivity.
Qed.

Lemma after_set_authentication_data (v : list (pyval * pyval)) (s : string)
    (w : World) :
  Json.dumps (envelope (PyDict v)) = Ok (PyStr s) ->
  NoDup (conversations w) -> unresolved w = ∅ ->
  (forall sc, sc ∈ conversations w -> well_stored w sc) ->
  PySpec.native (PyDict v) = true ->
  let w1 := exec (Requires.set_authentication_data (PyDict v)) w in
  NoDup (conversations w1) /\ unresolved w1 = ∅ /\
  conversations w1 = conversations w /\
  (forall sc, sc ∈ conversations w1 -> well_stored w1 sc) /\
  (forall sc, sc ∈ conversations w ->
     passed_over w1 sc (PyDict v) = true) /\
  (forall sc x, sc ∈ conversations w -> outdated w sc v ->
     passed_over w1 sc x = Py.eq (PyDict v) x).
Proof.
  intros Hd Hnd Hu Hw Hn. cbv zeta.
  destruct (set_authentication_data_runs v s w Hd Hnd Hu Hw)
    as (_ & _ & Hc & Hu1 & Hs).
  pose proof (payload_dumps (PyDict v) s Hn Hd) as Hp.
  assert (Hst : forall sc, sc ∈ conversations w ->
            stored (exec (Requires.set_authentication_data (PyDict v)) w) sc
            = if passed_over w sc (PyDict v) then stored w sc else PyStr s).
  { intros sc Hin. rewrite Hs, (bool_decide_eq_true_2 _ Hin). cbn [andb].
    destruct (passed_over w sc (PyDict v)); reflexivity. }
  split; [rewrite Hc; exact Hnd|]. split; [rewrite Hu1; exact Hu|].
  split; [exact Hc|]. split; [|split].
  - intros sc Hin. rewrite Hc in Hin. unfold well_stored.
    rewrite (Hst sc Hin). destruct (passed_over w sc (PyDict v)).
    + apply Hw, Hin.
    + right. exists v. exact Hp.
  - intros sc Hin. destruct (passed_over w sc (PyDict v)) eqn:Hpo.
    + rewrite <- Hpo. apply passed_over_stored.
      rewrite (Hst sc Hin), Hpo. reflexivity.
    + rewrite (passed_over_text _ sc s (PyDict v)); [| |exact Hp].
      * apply SetterFacts.eq_native_refl, Hn.
      * rewrite (Hst sc Hin), Hpo. reflexivity.
  - intros sc x Hin Ho.
    apply (passed_over_outdated w sc v (Hw sc Hin)) in Ho.
    apply (passed_over_text _ sc s); [|exact Hp].
    rewrite (Hst sc Hin), Ho. reflexivity.
Qed.

(** ** Writes in pairs *)

Lemma paired_app (l1 l2 : list event) :
  paired l1 -> paired l2 -> paired (l1 ++ l2).
Proof.
  intros H1 H2. induction H1 as [|sc k x l _ IH]; [exact H2|].
  rewrite <- app_assoc. constructor. exact IH.
Qed.

Lemma writes_app (l1 l2 : list event) :
  writes (l1 ++ l2) = writes l1 ++ writes l2.
Proof. unfold writes. apply List.filter_app. Qed.

Section Synced.
Context (sc key : string).

Lemma synced_log (lvl : level) (msg : string) :
  preserves (synced sc key) (log lvl msg).
Proof. intros w H. exact H. Qed.

Lemma synced_set_state (state self : string) :
  preserves (synced sc key) (set_state state self).
Proof.
  intros w H. unfold synced, exec, set_state in *. cbn [fst].
  rewrite conversation_with.
  destruct (decide (self = sc)) as [->|]; cbn [local remote]; exact H.
Qed.

Lemma synced_remove_state (state self : string) :
  preserves (synced sc key) (remove_state state self).
Proof.
  intros w H. unfold synced, exec, remove_state in *. cbn [fst].
  rewrite conversation_with.
  destruct (decide (self = sc)) as [->|]; cbn [local remote]; exact H.
Qed.

Lemma synced_pair (k : string) (x : pyval) (scope : string) :
  preserves (synced sc key)
    (set_local k x scope ;; set_remote k x scope).
Proof.
  intros w H. unfold synced in *. autorewrite with run look.
  destruct (decide (scope = sc)) as [->|]; [|exact H].
  destruct (decide (k = key)) as [->|Hne].
  - rewrite !lookup_insert_eq. reflexivity.
  - rewrite !lookup_insert_ne by exact Hne. exact H.
Qed.

Lemma synced_write_both (k : string) (r : result pyval) (scope : string) :
  preserves (synced sc key) (write_both k r scope).
Proof.
  unfold write_both. destruct r as [x|e].
  - intros w H. apply (synced_pair k x scope w H).
  - intros w H. exact H.
Qed.

End Synced.

#[export] Hint Resolve synced_log synced_set_state synced_remove_state
  synced_pair : frame.

Ltac as_preserves :=
  match goal with
  | |- forall w, ?P w -> ?P (exec ?m w) => change (preserves P m)
  end.

(** [frame], for code that ends with the two writes. *)
Ltac frame_writes lemma :=
  repeat first
    [ apply lemma
    | progress eauto with frame
    | apply preserves_bind; [|intros ?]
    | apply preserves_if
    | apply preserves_try
    | apply preserves_for_each; intros ?
    | match goal with
      | |- preserves _ (match ?x with _ => _ end) => destruct x
      end ].

Lemma synced_plugin_call (sc key : string) (c : PluginEndpoint.call)
    (w : World) :
  synced sc key w -> synced sc key (PluginEndpoint.run c w).
Proof.
  revert w. destruct c; cbn [PluginEndpoint.run]; as_preserves.
  - unfold Provides.joined, Provides.update_status,
      Provides._authentication_data. frame.
  - unfold Provides.changed, Provides.update_status,
      Provides._authentication_data. frame.
  - unfold Provides.departed. frame.
  - unfold Provides.update_status, Provides._authentication_data. frame.
  - unfold Provides.clear_changed. frame.
  - unfold Provides.name. frame.
  - unfold Provides.set_name. frame.
  - unfold Provides.authentication_data, Provides._authentication_data.
    frame.
  - unfold Provides.configuration_data. frame.
  - unfold Provides.set_configuration_data.
    frame_writes (synced_write_both sc key).
Qed.

Lemma synced_principal_call (sc key : string) (c : PrincipalEndpoint.call)
    (w : World) :
  synced sc key w -> synced sc key (PrincipalEndpoint.run c w).
Proof.
  revert w. destruct c; cbn [PrincipalEndpoint.run]; as_preserves.
  - unfold Requires.joined, Requires.update_status, Requires._name,
      Requires._configuration_data. frame.
  - unfold Requires.changed, Requires.update_status, Requires._name,
      Requires._configuration_data. frame.
  - unfold Requires.departed. frame.
  - unfold Requires.update_status, Requires._name,
      Requires._configuration_data. frame.
  - unfold Requires.clear_changed. frame.
  - unfold Requires.name, Requires._name. frame.
  - unfold Requires.authentication_data. frame.
  - unfold Requires.set_authentication_data,
      Requires.send_authentication_data.
    frame_writes (synced_write_both sc key).
  - unfold Requires.configuration_data, Requires._configuration_data.
    frame.
Qed.

Lemma synced_env_step (sc key : string) (e : env) (w : World) :
  synced sc key w -> synced sc key (env_step e w).
Proof.
  unfold synced. destruct e as [scope k x | scopes failing]; cbn [env_step].
  - rewrite conversation_with.
    destruct (decide (scope = sc)) as [->|]; cbn [local remote]; auto.
  - auto.
Qed.

Lemma synced_new (sc key : string) : synced sc key new_world.
Proof. reflexivity. Qed.

(** ** The state flags *)

(** Decides membership in the states of a conversation of a sample run. *)
Ltac by_evaluation :=
  unfold in_state; refine (bool_decide_unpack _ _); vm_compute; exact I.

Lemma plugin_reachable_steps (l : list PluginEndpoint.step) (w : World) :
  PluginEndpoint.reachable w ->
  PluginEndpoint.reachable (PluginEndpoint.run_steps l w).
Proof.
  revert w. induction l as [|s l IH]; intros w Hw; [exact Hw|].
  cbn. apply IH. constructor. exact Hw.
Qed.

Lemma principal_reachable_steps (l : list PrincipalEndpoint.step) (w : World) :
  PrincipalEndpoint.reachable w ->
  PrincipalEndpoint.reachable (PrincipalEndpoint.run_steps l w).
Proof.
  revert w. induction l as [|s l IH]; intros w Hw; [exact Hw|].
  cbn. apply IH. constructor. exact Hw.
Qed.

Lemma flag_effect_invariant (S S' : gset string) (P Q : Prop) :
  flag_effect S S' P Q ->
  (changed_state ∈ S -> available ∈ S) ->
  changed_state ∈ S' -> available ∈ S'.
Proof.
  intros [-> | [-> | [-> | [-> | [[_ ->] | [_ ->]]]]]] H; flag_solver.
Qed.

Lemma flag_effect_available (S S' : gset string) (P Q : Prop) :
  flag_effect S S' P Q -> available ∈ S -> available ∈ S' \/ P.
Proof.
  intros [-> | [-> | [-> | [-> | [[HP ->] | [_ ->]]]]]] H;
    try (left; flag_solver). right. exact HP.
Qed.

Lemma flag_effect_changed (S S' : gset string) (P Q : Prop) :
  flag_effect S S' P Q -> changed_state ∈ S ->
  changed_state ∈ S' \/ P \/ Q.
Proof.
  intros [-> | [-> | [-> | [-> | [[HP ->] | [HQ ->]]]]]] H;
    try (left; flag_solver); auto.
Qed.

(** C2.  In every state that either endpoint can reach from the initial
    one, by any sequence of hooks, calls of the charm (the setters
    included) and changes made by the peer, a conversation that is in the
    state [changed] is in the state [available] too.  As every step leads
    to a reachable state again, no step sets [changed] without [available]
    being set in the state it leaves. *)
Theorem changed_implies_available (w : World) (sc : string) :
  PluginEndpoint.reachable w \/ PrincipalEndpoint.reachable w ->
  in_state w sc changed_state -> in_state w sc available.
Proof.
  unfold in_state. intros [Hw | Hw].
  - induction Hw as [|w s Hw IH].
    + cbn. set_solver.
    + apply (flag_effect_invariant _ _ _ _ (plugin_flag_effect s w sc) IH).
  - induction Hw as [|w s Hw IH].
    + cbn. set_solver.
    + apply (flag_effect_invariant _ _ _ _ (principal_flag_effect s w sc) IH).
Qed.

Lemma changed_implies_available_witness :
  in_state plugin_joined "global" available.
Proof.
  apply (changed_implies_available plugin_joined "global").
  - left. apply plugin_reachable_steps. constructor.
  - by_evaluation.
Defined.

(** C4.  A conversation that is in the state [available] stays in it
    under every sequence of steps of its endpoint that does not contain
    the departed (or broken) hook of that conversation; and a single step
    after which it has left the state is that hook. *)
Theorem available_until_departed (w : World) (sc : string) :
  in_state w sc available ->
  (forall l,
     ~ In (PluginEndpoint.Call (PluginEndpoint.Departed sc)) l ->
     in_state (PluginEndpoint.run_steps l w) sc available) /\
  (forall l,
     ~ In (PrincipalEndpoint.Call (PrincipalEndpoint.Departed sc)) l ->
     in_state (PrincipalEndpoint.run_steps l w) sc available) /\
  (forall s,
     ~ in_state (PluginEndpoint.do_step s w) sc available ->
     s = PluginEndpoint.Call (PluginEndpoint.Departed sc)) /\
  (forall s,
     ~ in_state (PrincipalEndpoint.do_step s w) sc available ->
     s = PrincipalEndpoint.Call (PrincipalEndpoint.Departed sc)).
Proof.
  unfold in_state. intros Hw. repeat split.
  - intros l. revert w Hw. induction l as [|s l IH]; intros w Hw Hl.
    + exact Hw.
    + cbn [PluginEndpoint.run_steps fold_left]. apply IH.
      * destruct (flag_effect_available _ _ _ _
                    (plugin_flag_effect s w sc) Hw) as [H | ->]; [exact H|].
        exfalso. apply Hl. left. reflexivity.
      * intros Hin. apply Hl. right. exact Hin.
  - intros l. revert w Hw. induction l as [|s l IH]; intros w Hw Hl.
    + exact Hw.
    + cbn [PrincipalEndpoint.run_steps fold_left]. apply IH.
      * destruct (flag_effect_available _ _ _ _
                    (principal_flag_effect s w sc) Hw) as [H | ->]; [exact H|].
        exfalso. apply Hl. left. reflexivity.
      * intros Hin. apply Hl. right. exact Hin.
  - intros s Hs.
    destruct (flag_effect_available _ _ _ _ (plugin_flag_effect s w sc) Hw)
      as [H | H]; [contradiction | exact H].
  - intros s Hs.
    destruct (flag_effect_available _ _ _ _ (principal_flag_effect s w sc) Hw)
      as [H | H]; [contradiction | exact H].
Qed.

Lemma available_until_departed_witness :
  in_state
    (PluginEndpoint.run_steps
       [PluginEndpoint.Call (PluginEndpoint.Changed "global");
        PluginEndpoint.Call (PluginEndpoint.ClearChanged "global");
        PluginEndpoint.Call (PluginEndpoint.Joined "global");
        PluginEndpoint.Call (PluginEndpoint.UpdateStatus "global")]
       plugin_joined)
    "global" available.
Proof.
  refine (proj1 (available_until_departed plugin_joined "global" _) _ _).
  - by_evaluation.
  - cbn [In]. intros [H | [H | [H | [H | []]]]]; discriminate H.
Defined.

(** C5.  Whatever the state, the departed (or broken) hook of either
    endpoint leaves the conversation in none of the states [connected],
    [available] and [changed], and running it once more changes nothing of
    the relation. *)
Theorem departed_clears_all (w : World) (self : string) :
  (let w' := exec (Provides.departed self) w in
   ~ in_state w' self connected /\
   ~ in_state w' self available /\
   ~ in_state w' self changed_state /\
   relation_of (exec (Provides.departed self) w') = relation_of w') /\
  (let w' := exec (Requires.departed self) w in
   ~ in_state w' self connected /\
   ~ in_state w' self available /\
   ~ in_state w' self changed_state /\
   relation_of (exec (Requires.departed self) w') = relation_of w').
Proof.
  unfold in_state. split; cbv zeta; repeat split;
    try (run_handler; split_conversation; flag_solver).
  - run_handler.
    repeat first
      [ rewrite with_conversation_emit
      | rewrite relation_of_emit
      | rewrite with_conversation_fuse ].
    apply relation_of_with. cbn [states local remote peer].
    f_equal. set_solver.
  - run_handler.
    repeat first
      [ rewrite with_conversation_emit
      | rewrite relation_of_emit
      | rewrite with_conversation_fuse ].
    apply relation_of_with. cbn [states local remote peer].
    f_equal. set_solver.
Qed.

(** The case that C5 names: after the joined hook has set all three
    states, the departed hook leaves none of them. *)
Example departed_after_joined :
  (in_state plugin_joined "global" connected /\
   in_state plugin_joined "global" available /\
   in_state plugin_joined "global" changed_state) /\
  (let w' := exec (Provides.departed "global") plugin_joined in
   ~ in_state w' "global" connected /\
   ~ in_state w' "global" available /\
   ~ in_state w' "global" changed_state).
Proof.
  cbv zeta. repeat split; by_evaluation.
Qed.

(** C9, the claim as it stands fails: the departed hook, which is not the
    acknowledgment [clear_changed], takes a conversation out of the state
    [changed]. *)
Lemma changed_cleared_by_departed :
  in_state plugin_joined "global" changed_state /\
  ~ in_state
      (PluginEndpoint.do_step
         (PluginEndpoint.Call (PluginEndpoint.Departed "global"))
         plugin_joined)
      "global" changed_state /\
  PluginEndpoint.Call (PluginEndpoint.Departed "global")
  <> PluginEndpoint.Call (PluginEndpoint.ClearChanged "global").
Proof.
  split; [by_evaluation|]. split; [by_evaluation | discriminate].
Qed.

(** C9, amended.  A step of either endpoint that takes a conversation out
    of the state [changed] is the acknowledgment [clear_changed] or the
    departed (or broken) hook of that conversation.  [clear_changed] takes
    the conversation out of [changed] and changes no other state of it,
    [available] and [connected] included, and no state of another
    conversation. *)
Theorem changed_cleared_by (w : World) (sc : string) :
  (in_state w sc changed_state ->
   (forall s,
      ~ in_state (PluginEndpoint.do_step s w) sc changed_state ->
      s = PluginEndpoint.Call (PluginEndpoint.ClearChanged sc) \/
      s = PluginEndpoint.Call (PluginEndpoint.Departed sc)) /\
   (forall s,
      ~ in_state (PrincipalEndpoint.do_step s w) sc changed_state ->
      s = PrincipalEndpoint.Call (PrincipalEndpoint.ClearChanged sc) \/
      s = PrincipalEndpoint.Call (PrincipalEndpoint.Departed sc))) /\
  (let w' := exec (Provides.clear_changed sc) w in
   ~ in_state w' sc changed_state /\
   forall sc' state,
     (sc', state) <> (sc, changed_state) ->
     (in_state w' sc' state <-> in_state w sc' state)) /\
  (let w' := exec (Requires.clear_changed sc) w in
   ~ in_state w' sc changed_state /\
   forall sc' state,
     (sc', state) <> (sc, changed_state) ->
     (in_state w' sc' state <-> in_state w sc' state)).
Proof.
  unfold in_state. split; [|split].
  - intros Hw. split; intros s Hs.
    + destruct (flag_effect_changed _ _ _ _ (plugin_flag_effect s w sc) Hw)
        as [H | [H | H]]; [contradiction | right | left]; exact H.
    + destruct (flag_effect_changed _ _ _ _ (principal_flag_effect s w sc) Hw)
        as [H | [H | H]]; [contradiction | right | left]; exact H.
  - cbv zeta. split.
    + run_handler. split_conversation. set_solver.
    + intros sc' state Hne. run_handler. rewrite conversation_with.
      destruct (decide (sc = sc')) as [<-|]; [|reflexivity].
      cbn [states]. assert (state <> changed_state) by congruence.
      set_solver.
  - cbv zeta. split.
    + run_handler. split_conversation. set_solver.
    + intros sc' state Hne. run_handler. rewrite conversation_with.
      destruct (decide (sc = sc')) as [<-|]; [|reflexivity].
      cbn [states]. assert (state <> changed_state) by congruence.
      set_solver.
Qed.

Lemma changed_cleared_by_witness :
  PluginEndpoint.Call (PluginEndpoint.Departed "global")
  = PluginEndpoint.Call (PluginEndpoint.ClearChanged "global") \/
  PluginEndpoint.Call (PluginEndpoint.Departed "global")
  = PluginEndpoint.Call (PluginEndpoint.Departed "global").
Proof.
  apply (proj1 (changed_cleared_by plugin_joined "global")).
  - by_evaluation.
  - by_evaluation.
Defined.

(** ** Reading before anything is there *)

(** What the three getters do when the local data of the first
    conversation cannot be fetched: the principal's getter catches the
    ValueError and returns None, the plugin's getters have no handler. *)
Lemma accessors_unresolved (w : World) (scope : string) (rest : list string) :
  conversations w = scope :: rest -> scope ∈ unresolved w ->
  outcome Requires.authentication_data w = Ok PyNone /\
  outcome Provides.name w = Raise ValueError /\
  outcome Provides.configuration_data w = Raise ValueError.
Proof.
  intros Hw Hs.
  unfold outcome, Requires.authentication_data, Provides.name,
    Provides.configuration_data, try_except_ValueError, bindM, first_scope,
    get_local.
  rewrite Hw. destruct (decide (scope ∈ unresolved w)); [|contradiction].
  repeat split; reflexivity.
Qed.

(** C6.  The endpoint always has a first conversation (the library joins
    one when it finds none), so that no session yet means that this
    conversation holds nothing under the key that is read, or, at the
    principal, that its local data cannot be fetched.  In each of these
    cases the getter returns None, raises nothing and changes nothing:
    the principal's [authentication_data], the plugin's [name] and the
    plugin's [configuration_data]. *)
Theorem accessors_absent (w : World) (scope : string) (rest : list string) :
  conversations w = scope :: rest ->
  (scope ∈ unresolved w \/
   local (conversation w scope) !! "_authentication_data" = None ->
   outcome Requires.authentication_data w = Ok PyNone /\
   exec Requires.authentication_data w = w) /\
  (scope ∉ unresolved w ->
   local (conversation w scope) !! "_name" = None ->
   outcome Provides.name w = Ok PyNone /\ exec Provides.name w = w) /\
  (scope ∉ unresolved w ->
   local (conversation w scope) !! "_configuration_data" = None ->
   outcome Provides.configuration_data w = Ok PyNone /\
   exec Provides.configuration_data w = w).
Proof.
  intros Hw. split; [|split].
  - intros H.
    unfold outcome, exec, Requires.authentication_data,
      try_except_ValueError, bindM, first_scope, get_local.
    rewrite Hw. destruct (decide (scope ∈ unresolved w)) as [Hin | Hout].
    + split; reflexivity.
    + destruct H as [H | H]; [contradiction|]. rewrite H.
      split; reflexivity.
  - intros Hs Hl.
    unfold outcome, exec, Provides.name, bindM, first_scope, get_local.
    rewrite Hw. destruct (decide (scope ∈ unresolved w)); [contradiction|].
    rewrite Hl. split; reflexivity.
  - intros Hs Hl.
    unfold outcome, exec, Provides.configuration_data, bindM, first_scope,
      get_local.
    rewrite Hw. destruct (decide (scope ∈ unresolved w)); [contradiction|].
    rewrite Hl. split; reflexivity.
Qed.

Lemma accessors_absent_witness :
  (outcome Requires.authentication_data fresh_world = Ok PyNone /\
   exec Requires.authentication_data fresh_world = fresh_world) /\
  (outcome Provides.name fresh_world = Ok PyNone /\
   exec Provides.name fresh_world = fresh_world) /\
  (outcome Provides.configuration_data fresh_world = Ok PyNone /\
   exec Provides.configuration_data fresh_world = fresh_world).
Proof.
  destruct (accessors_absent fresh_world "global" [] eq_refl)
    as (Ha & Hn & Hc).
  split; [|split].
  - apply Ha. right. reflexivity.
  - apply Hn; [set_solver | reflexivity].
  - apply Hc; [set_solver | reflexivity].
Defined.

(** ** The writes of the authentication data *)





Lemma principal_two_conversations :
  conversations principal_two = ["plugin/0"; "plugin/1"].
Proof. reflexivity. Qed.

Lemma principal_two_well_stored (sc : string) :
  sc ∈ conversations principal_two -> well_stored principal_two sc.
Proof.
  rewrite principal_two_conversations. intros Hin.
  apply elem_of_cons in Hin as [-> | Hin].
  - right. exists (items_of sample_authentication). vm_compute. reflexivity.
  - apply elem_of_cons in Hin as [-> | Hin]; [|set_solver].
    left. vm_compute. reflexivity.
Defined.


(** *** The journal of a call *)

Section PairedSince.
Context (w0 : World).

Lemma paired_since_refl : paired_since w0 w0.
Proof. exists []. split; [rewrite app_nil_r; reflexivity | constructor]. Qed.

Lemma paired_since_log (lvl : level) (msg : string) :
  preserves (paired_since w0) (log lvl msg).
Proof.
  intros w (evs & Hj & Hp). exists (evs ++ [Log lvl msg]). split.
  - rewrite exec_log. unfold emit. cbn [journal]. rewrite Hj, app_assoc.
    reflexivity.
  - rewrite writes_app. cbn. rewrite app_nil_r. exact Hp.
Qed.

Lemma paired_since_set_state (state self : string) :
  preserves (paired_since w0) (set_state state self).
Proof. intros w H. exact H. Qed.

Lemma paired_since_remove_state (state self : string) :
  preserves (paired_since w0) (remove_state state self).
Proof. intros w H. exact H. Qed.

Lemma paired_since_pair (k : string) (x : pyval) (scope : string) :
  preserves (paired_since w0) (set_local k x scope ;; set_remote k x scope).
Proof.
  intros w (evs & Hj & Hp). exists (evs ++ write_pair scope k x). split.
  - autorewrite with run look. rewrite Hj, <- !app_assoc. reflexivity.
  - rewrite writes_app. apply paired_app; [exact Hp|].
    apply (paired_cons scope k x [] paired_nil).
Qed.

Lemma paired_since_write_both (k : string) (r : result pyval)
    (scope : string) :
  preserves (paired_since w0) (write_both k r scope).
Proof.
  unfold write_both. destruct r as [x|e].
  - intros w H. apply (paired_since_pair k x scope w H).
  - intros w H. exact H.
Qed.

End PairedSince.

#[export] Hint Resolve paired_since_log paired_since_set_state
  paired_since_remove_state paired_since_pair : frame.

Lemma paired_since_writes {A} (m : M A) (w : World) :
  preserves (paired_since w) m -> paired (writes (since w (exec m w))).
Proof.
  intros H. destruct (H w (paired_since_refl w)) as (evs & Hj & Hp).
  rewrite (since_app _ _ _ Hj). exact Hp.
Qed.

Lemma set_configuration_data_paired (w0 : World) (data : pyval) :
  preserves (paired_since w0) (Provides.set_configuration_data data).
Proof.
  unfold Provides.set_configuration_data.
  frame_writes (paired_since_write_both w0).
Qed.

Lemma set_name_paired (w0 : World) (name : pyval) :
  preserves (paired_since w0) (Provides.set_name name).
Proof. unfold Provides.set_name. frame. Qed.

Lemma set_authentication_data_paired (w0 : World) (value : pyval) :
  preserves (paired_since w0) (Requires.set_authentication_data value).
Proof.
  unfold Requires.set_authentication_data, Requires.send_authentication_data.
  frame_writes (paired_since_write_both w0).
Qed.

(** C10.  Whatever the state and the argument, the writes of a call of
    the plugin's setter of the configuration data, of its setter of the
    name and of the principal's setter of the authentication data come in
    pairs: a write to the local data of a conversation, followed by the
    write of the same value under the same key to the remote settings of
    that conversation; with a first conversation, the two plugin setters
    make one such pair, of the serialised envelope and of the name.  In
    every state that either endpoint reaches from the initial one, the
    local data and the remote settings of every conversation hold the
    same under every key. *)
Theorem local_equals_remote (w : World) :
  (forall data,
     paired (writes (since w (exec (Provides.set_configuration_data data) w)))) /\
  (forall name,
     paired (writes (since w (exec (Provides.set_name name) w)))) /\
  (forall value,
     paired
       (writes (since w (exec (Requires.set_authentication_data value) w)))) /\
  (forall scope rest data text,
     conversations w = scope :: rest ->
     Json.dumps (envelope data) = Ok (PyStr text) ->
     since w (exec (Provides.set_configuration_data data) w)
     = write_pair scope "_configuration_data" (PyStr text)) /\
  (forall scope rest name,
     conversations w = scope :: rest ->
     since w (exec (Provides.set_name name) w) = write_pair scope "_name" name) /\
  (PluginEndpoint.reachable w \/ PrincipalEndpoint.reachable w ->
   forall sc key,
     local (conversation w sc) !! key = remote (conversation w sc) !! key).
Proof.
  split; [|split; [|split; [|split; [|split]]]].
  - intros data. apply paired_since_writes, set_configuration_data_paired.
  - intros name. apply paired_since_writes, set_name_paired.
  - intros value. apply paired_since_writes, set_authentication_data_paired.
  - intros scope rest data text Hc Hd. apply since_app.
    unfold Provides.set_configuration_data. autorewrite with run.
    rewrite Hc. autorewrite with run. rewrite Hd. autorewrite with run look.
    rewrite <- app_assoc. reflexivity.
  - intros scope rest name Hc. apply since_app.
    unfold Provides.set_name. autorewrite with run.
    rewrite Hc. autorewrite with run look.
    rewrite <- app_assoc. reflexivity.
  - intros [Hw | Hw] sc key; fold (synced sc key w).
    + induction Hw as [|w [c|e] Hw IH]; [apply synced_new | |];
        cbn [PluginEndpoint.do_step].
      * apply synced_plugin_call, IH.
      * apply synced_env_step, IH.
    + induction Hw as [|w [c|e] Hw IH]; [apply synced_new | |];
        cbn [PrincipalEndpoint.do_step].
      * apply synced_principal_call, IH.
      * apply synced_env_step, IH.
Qed.

Lemma local_equals_remote_witness :
  since plugin_named
    (exec (Provides.set_configuration_data sample_configuration) plugin_named)
  = write_pair "global" "_configuration_data"
      (PyStr (text_of sample_configuration)) /\
  since plugin_named (exec (Provides.set_name (PyStr "manila")) plugin_named)
  = write_pair "global" "_name" (PyStr "manila") /\
  local (conversation plugin_named "global") !! "_name"
  = remote (conversation plugin_named "global") !! "_name".
Proof.
  destruct (local_equals_remote plugin_named) as (_ & _ & _ & Hc & Hn & Hs).
  split; [|split].
  - apply (Hc "global" []); [reflexivity | vm_compute; reflexivity].
  - apply (Hn "global" []). reflexivity.
  - apply Hs. left. apply plugin_reachable_steps. constructor.
Defined.

(** ** From one end to the other *)

Lemma dumps_native (d : pyval) :
  PySpec.native d = true ->
  exists s, Json.dumps (envelope d) = Ok (PyStr s) /\ payload (PyStr s) = Ok d.
Proof.
  intros Hn. destruct (JsonFacts.native_to_json d Hn) as (j & Hj & Hv).
  destruct (JsonFacts.unwrap_envelope d j Hj) as (s & Hd & Hp).
  exists s. split; [exact Hd|]. unfold payload. rewrite Hp, Hv. reflexivity.
Qed.


Lemma set_configuration_data_sends (d : pyval) (s : string) (w : World)
    (sc : string) (rest : list string) :
  conversations w = sc :: rest ->
  Json.dumps (envelope d) = Ok (PyStr s) ->
  outcome (Provides.set_configuration_data d) w = Ok tt /\
  local (conversation (exec (Provides.set_configuration_data d) w) sc)
    !! "_configuration_data" = Some (PyStr s) /\
  remote (conversation (exec (Provides.set_configuration_data d) w) sc)
    !! "_configuration_data" = Some (PyStr s).
Proof.
  intros Hc Hd. unfold Provides.set_configuration_data.
  autorewrite with run. rewrite Hc. autorewrite with run. rewrite Hd.
  autorewrite with run look.
  destruct (decide (sc = sc)); [|congruence].
  rewrite !lookup_insert_eq. repeat split.
Qed.








(** ** A failure in the loop *)



Section Fetched.
Context (v : list (pyval * pyval)) (s : string).
Hypothesis Hdumps : Json.dumps (envelope (PyDict v)) = Ok (PyStr s).





End Fetched.









(** ** A value with other keys *)



Section Remote.
Context (v : list (pyval * pyval)) (s : string).
Hypothesis Hdumps : Json.dumps (envelope (PyDict v)) = Ok (PyStr s).



End Remote.



(** ** Calls that write nothing *)

Lemma silent_since_refl (w : World) : silent_since w w.
Proof. exists []. split; [rewrite app_nil_r|]; reflexivity. Qed.

Lemma silent_since_log (w0 : World) (lvl : level) (msg : string) :
  preserves (silent_since w0) (log lvl msg).
Proof.
  intros w (evs & Hj & Hp). exists (evs ++ [Log lvl msg]). split.
  - rewrite exec_log. unfold emit. cbn [journal]. rewrite Hj, app_assoc.
    reflexivity.
  - rewrite writes_app, Hp. reflexivity.
Qed.

Lemma silent_since_writes (w w' : World) :
  silent_since w w' -> writes (since w w') = [].
Proof. intros (evs & Hj & Hp). rewrite (since_app _ _ _ Hj). exact Hp. Qed.

Lemma untouched_log (w0 : World) (lvl : level) (msg : string) :
  preserves (untouched_since w0) (log lvl msg).
Proof.
  intros w [Hr Hs]. split; [exact Hr | apply silent_since_log, Hs].
Qed.

Lemma data_kept_log (w0 : World) (lvl : level) (msg : string) :
  preserves (data_kept_since w0) (log lvl msg).
Proof.
  intros w (Hc & Hd & Hs). split; [exact Hc|].
  split; [exact Hd | apply silent_since_log, Hs].
Qed.

Lemma data_kept_set_state (w0 : World) (state self : string) :
  preserves (data_kept_since w0) (set_state state self).
Proof.
  intros w (Hc & Hd & Hs). split; [exact Hc|]. split; [|exact Hs].
  intros sc. unfold exec, set_state. cbn [fst]. rewrite conversation_with.
  destruct (decide (self = sc)) as [->|]; cbn [local remote peer]; apply Hd.
Qed.

Lemma data_kept_remove_state (w0 : World) (state self : string) :
  preserves (data_kept_since w0) (remove_state state self).
Proof.
  intros w (Hc & Hd & Hs). split; [exact Hc|]. split; [|exact Hs].
  intros sc. unfold exec, remove_state. cbn [fst]. rewrite conversation_with.
  destruct (decide (self = sc)) as [->|]; cbn [local remote peer]; apply Hd.
Qed.

#[export] Hint Resolve untouched_log data_kept_log data_kept_set_state
  data_kept_remove_state : frame.

(** The getters of both ends change nothing of the relation and write
    nothing to the transport, whatever the state and whether they return
    or raise: they read, and log at most. *)
Theorem getters_write_nothing (w : World) (self : string) :
  let quiet {A} (m : M A) :=
    relation_of (exec m w) = relation_of w /\
    writes (since w (exec m w)) = [] in
  quiet Provides.name /\
  quiet (Provides.authentication_data self) /\
  quiet Provides.configuration_data /\
  quiet (Requires.name self) /\
  quiet Requires.authentication_data /\
  quiet (Requires.configuration_data self).
Proof.
  cbv zeta.
  assert (H : forall A (m : M A),
            preserves (untouched_since w) m ->
            relation_of (exec m w) = relation_of w /\
            writes (since w (exec m w)) = []).
  { intros A m Hm.
    destruct (Hm w (conj eq_refl (silent_since_refl w))) as [Hr Hs].
    split; [exact Hr | apply silent_since_writes, Hs]. }
  split; [|split; [|split; [|split; [|split]]]]; apply H.
  - unfold Provides.name. frame.
  - unfold Provides.authentication_data, Provides._authentication_data.
    frame.
  - unfold Provides.configuration_data. frame.
  - unfold Requires.name, Requires._name. frame.
  - unfold Requires.authentication_data. frame.
  - unfold Requires.configuration_data, Requires._configuration_data. frame.
Qed.

Ltac never_raises :=
  unfold outcome; run_handler;
  repeat match goal with
         | |- context [if ?b then _ else _] => destruct b
         end;
  reflexivity.

(** The hooks of both ends, [update_status] and [clear_changed] never
    raise, leave the list of conversations and the local data, the
    remote settings and the peer's settings of every conversation as they
    are, and write nothing to the transport: they change states, and
    log. *)
Theorem hooks_keep_the_data (w : World) (self : string) :
  let kept (m : M unit) :=
    outcome m w = Ok tt /\
    conversations (exec m w) = conversations w /\
    (forall sc,
       local (conversation (exec m w) sc) = local (conversation w sc) /\
       remote (conversation (exec m w) sc) = remote (conversation w sc) /\
       peer (conversation (exec m w) sc) = peer (conversation w sc)) /\
    writes (since w (exec m w)) = [] in
  (kept (Provides.joined self) /\ kept (Provides.changed self) /\
   kept (Provides.departed self) /\ kept (Provides.update_status self) /\
   kept (Provides.clear_changed self)) /\
  (kept (Requires.joined self) /\ kept (Requires.changed self) /\
   kept (Requires.departed self) /\ kept (Requires.update_status self) /\
   kept (Requires.clear_changed self)).
Proof.
  cbv zeta.
  assert (H : forall m : M unit,
            outcome m w = Ok tt ->
            preserves (data_kept_since w) m ->
            outcome m w = Ok tt /\
            conversations (exec m w) = conversations w /\
            (forall sc,
               local (conversation (exec m w) sc) = local (conversation w sc) /\
               remote (conversation (exec m w) sc)
               = remote (conversation w sc) /\
               peer (conversation (exec m w) sc) = peer (conversation w sc)) /\
            writes (since w (exec m w)) = []).
  { intros m Ho Hm.
    destruct (Hm w) as (Hc & Hd & Hs).
    { split; [reflexivity|]. split; [|apply silent_since_refl].
      intros sc. repeat split. }
    split; [exact Ho|]. split; [exact Hc|]. split; [exact Hd|].
    apply silent_since_writes, Hs. }
  split; (split; [|split; [|split; [|split]]]); apply H;
    try never_raises.
  - unfold Provides.joined, Provides.update_status,
      Provides._authentication_data. frame.
  - unfold Provides.changed, Provides.update_status,
      Provides._authentication_data. frame.
  - unfold Provides.departed. frame.
  - unfold Provides.update_status, Provides._authentication_data. frame.
  - unfold Provides.clear_changed. frame.
  - unfold Requires.joined, Requires.update_status, Requires._name,
      Requires._configuration_data. frame.
  - unfold Requires.changed, Requires.update_status, Requires._name,
      Requires._configuration_data. frame.
  - unfold Requires.departed. frame.
  - unfold Requires.update_status, Requires._name,
      Requires._configuration_data. frame.
  - unfold Requires.clear_changed. frame.
Qed.

(** ** What the plugin has set *)

(** The name that the plugin has set is the name that its getter
    returns, from the local data of the first conversation. *)
Theorem name_set_then_read (w : World) (scope : string)
    (rest : list string) (name : pyval) :
  conversations w = scope :: rest -> scope ∉ unresolved w ->
  outcome (Provides.set_name name) w = Ok tt /\
  outcome Provides.name (exec (Provides.set_name name) w) = Ok name.
Proof.
  intros Hc Hu. unfold Provides.set_name, Provides.name.
  autorewrite with run. rewrite Hc. autorewrite with run look.
  rewrite Hc. autorewrite with run look.
  destruct (decide (scope ∈ unresolved w)); [contradiction|].
  destruct (decide (scope = scope)); [|congruence].
  rewrite lookup_insert_eq. split; reflexivity.
Qed.

Lemma name_set_then_read_witness :
  outcome Provides.name (exec (Provides.set_name (PyStr "generic")) fresh_world)
  = Ok (PyStr "generic").
Proof.
  apply (name_set_then_read fresh_world "global" [] (PyStr "generic"));
    [reflexivity | set_solver].
Defined.

(** The configuration data that the plugin has set, a record that JSON
    gives back as it is, are what its own getter returns. *)
Theorem configuration_set_then_read (w : World) (scope : string)
    (rest : list string) (data : pyval) :
  conversations w = scope :: rest -> scope ∉ unresolved w ->
  PySpec.native data = true ->
  outcome (Provides.set_configuration_data data) w = Ok tt /\
  outcome Provides.configuration_data
    (exec (Provides.set_configuration_data data) w) = Ok data.
Proof.
  intros Hc Hu Hn. destruct (dumps_native data Hn) as (s & Hd & Hp).
  destruct (set_configuration_data_sends data s w scope rest Hc Hd)
    as (Ho & Hl & _).
  split; [exact Ho|].
  assert (Hc1 : conversations (exec (Provides.set_configuration_data data) w)
                = scope :: rest).
  { unfold Provides.set_configuration_data. autorewrite with run.
    rewrite Hc. autorewrite with run. rewrite Hd. autorewrite with run look.
    exact Hc. }
  assert (Hu1 : unresolved (exec (Provides.set_configuration_data data) w)
                = unresolved w).
  { unfold Provides.set_configuration_data. autorewrite with run.
    rewrite Hc. autorewrite with run. rewrite Hd. autorewrite with run look.
    reflexivity. }
  unfold Provides.configuration_data at 1. autorewrite with run.
  rewrite Hc1. autorewrite with run. rewrite Hu1.
  destruct (decide (scope ∈ unresolved w)); [contradiction|].
  rewrite Hl. cbn [dict_default Py.is_None]. autorewrite with run.
  exact Hp.
Qed.

Lemma configuration_set_then_read_witness :
  outcome Provides.configuration_data
    (exec (Provides.set_configuration_data sample_configuration) fresh_world)
  = Ok sample_configuration.
Proof.
  apply (configuration_set_then_read fresh_world "global" []
           sample_configuration); [reflexivity | set_solver | reflexivity].
Defined.

(** The plugin's setter of the configuration data has no test of what is
    stored: a second call with the same data writes the same pair
    again. *)
Theorem configuration_written_again (w : World) (scope : string)
    (rest : list string) (data : pyval) (text : string) :
  conversations w = scope :: rest ->
  Json.dumps (envelope data) = Ok (PyStr text) ->
  let set := Provides.set_configuration_data data in
  since w (exec set (exec set w))
  = write_pair scope "_configuration_data" (PyStr text)
    ++ write_pair scope "_configuration_data" (PyStr text).
Proof.
  intros Hc Hd. cbv zeta. apply since_app.
  unfold Provides.set_configuration_data.
  autorewrite with run. rewrite Hc. autorewrite with run. rewrite Hd.
  autorewrite with run look. rewrite Hc. autorewrite with run look.
  rewrite <- !app_assoc. reflexivity.
Qed.

Lemma configuration_written_again_witness :
  since fresh_world
    (exec (Provides.set_configuration_data sample_configuration)
       (exec (Provides.set_configuration_data sample_configuration)
          fresh_world))
  = write_pair "global" "_configuration_data"
      (PyStr (text_of sample_configuration))
    ++ write_pair "global" "_configuration_data"
         (PyStr (text_of sample_configuration)).
Proof.
  apply (configuration_written_again fresh_world "global" []
           sample_configuration (text_of sample_configuration));
    [reflexivity | vm_compute; reflexivity].
Defined.

(** ** A value that is no dict *)

(** The principal's setter asks the value for its keys before the loop:
    for a value that is no dict it logs its first line, raises
    AttributeError and changes nothing of the relation. *)
Theorem authentication_data_not_a_dict (w : World) (value : pyval) :
  (forall d, value <> PyDict d) ->
  outcome (Requires.set_authentication_data value) w = Raise AttributeError /\
  since w (exec (Requires.set_authentication_data value) w) = [setting_line] /\
  relation_of (exec (Requires.set_authentication_data value) w)
  = relation_of w.
Proof.
  intros Hv.
  assert (Hk : Py.keys value = Raise AttributeError).
  { destruct value as [| | | | | |d]; try reflexivity.
    destruct (Hv d). reflexivity. }
  unfold Requires.set_authentication_data. autorewrite with run.
  rewrite Hk. split; [reflexivity|]. split; [|reflexivity].
  apply since_app. reflexivity.
Qed.

Lemma authentication_data_not_a_dict_witness :
  outcome (Requires.set_authentication_data (PyList [PyStr "username"]))
    principal_two = Raise AttributeError.
Proof.
  apply (authentication_data_not_a_dict principal_two
           (PyList [PyStr "username"])).
  intros d. discriminate.
Defined.

(** ** What the principal has set *)

Lemma authentication_data_stored (w : World) (scope : string)
    (rest : list string) :
  conversations w = scope :: rest -> scope ∉ unresolved w ->
  Py.is_None (stored w scope) = false ->
  outcome Requires.authentication_data w = payload (stored w scope).
Proof.
  intros Hc Hu Hs. unfold Requires.authentication_data.
  autorewrite with run. rewrite Hc. autorewrite with run.
  destruct (decide (scope ∈ unresolved w)); [contradiction|].
  autorewrite with run. fold (stored w scope). rewrite Hs.
  autorewrite with run. reflexivity.
Qed.

(** After the principal has set the authentication data, a record that
    JSON gives back as it is, its getter returns a record that is [==]
    to them: the record itself where the setter has written for the
    first conversation, the record that was stored where it has passed
    the conversation over. *)
Theorem authentication_set_then_read (v : list (pyval * pyval)) (s : string)
    (w : World) (scope : string) (rest : list string) :
  conversations w = scope :: rest ->
  Json.dumps (envelope (PyDict v)) = Ok (PyStr s) ->
  NoDup (conversations w) -> unresolved w = ∅ ->
  (forall sc, sc ∈ conversations w -> well_stored w sc) ->
  PySpec.native (PyDict v) = true ->
  let w1 := exec (Requires.set_authentication_data (PyDict v)) w in
  exists x,
    outcome Requires.authentication_data w1 = Ok x /\
    Py.eq x (PyDict v) = true /\
    (outdated w scope v -> x = PyDict v).
Proof.
  intros Hc Hd Hnd Hu Hw Hn. cbv zeta.
  destruct (after_set_authentication_data v s w Hd Hnd Hu Hw Hn)
    as (_ & Hu1 & Hc1 & _ & Hp1 & Hq1).
  assert (Hin : scope ∈ conversations w) by (rewrite Hc; left).
  specialize (Hp1 scope Hin).
  set (w1 := exec (Requires.set_authentication_data (PyDict v)) w) in *.
  assert (Hs : Py.is_None (stored w1 scope) = false).
  { unfold passed_over in Hp1. destruct (Py.is_None (stored w1 scope));
      [discriminate | reflexivity]. }
  assert (Hr : outcome Requires.authentication_data w1
               = payload (stored w1 scope)).
  { apply (authentication_data_stored w1 scope rest);
      [rewrite Hc1; exact Hc | rewrite Hu1; set_solver | exact Hs]. }
  unfold passed_over in Hp1. rewrite Hs in Hp1. cbn [negb andb] in Hp1.
  destruct (payload (stored w1 scope)) as [x|e] eqn:Hx; [|discriminate].
  exists x. split; [exact Hr|]. split; [exact Hp1|].
  intros Hout.
  destruct (set_authentication_data_runs v s w Hd Hnd Hu Hw)
    as (_ & _ & _ & _ & Hst).
  specialize (Hst scope). rewrite (bool_decide_eq_true_2 _ Hin) in Hst.
  apply (passed_over_outdated w scope v (Hw scope Hin)) in Hout.
  rewrite Hout in Hst. cbn [andb negb] in Hst. fold w1 in Hst.
  rewrite Hst, (payload_dumps (PyDict v) s Hn Hd) in Hx. congruence.
Qed.

Lemma authentication_set_then_read_witness :
  exists x,
    outcome Requires.authentication_data
      (exec (Requires.set_authentication_data sample_authentication)
         principal_two) = Ok x /\
    Py.eq x sample_authentication = true.
Proof.
  assert (Hnd : NoDup ["plugin/0"; "plugin/1"]).
  { apply NoDup_cons. split; [set_solver | apply NoDup_singleton]. }
  destruct (authentication_set_then_read (items_of sample_authentication)
              (text_of sample_authentication) principal_two
              "plugin/0" ["plugin/1"] eq_refl)
    as (x & Hx & He & _).
  - vm_compute. reflexivity.
  - exact Hnd.
  - reflexivity.
  - apply principal_two_well_stored.
  - reflexivity.
  - exists x. split; [exact Hx | exact He].
Defined.

(** ** The flags after a hook *)

Lemma update_status_with_data (w : World) (self : string) (data : pyval) :
  peer (conversation w self) !! "_authentication_data" = Some data ->
  data <> PyNone ->
  let w' := exec (Provides.update_status self) w in
  in_state w' self changed_state /\ in_state w' self available.
Proof.
  intros Hp Hd. cbv zeta. unfold in_state. run_handler.
  rewrite !conversation_emit, Hp. cbn [dict_default].
  assert (Hn : Py.is_None data = false)
    by (destruct data; try reflexivity; congruence).
  rewrite Hn. cbn [negb]. split_conversation; set_solver.
Qed.

(** After the acknowledgment, the next changed hook of the plugin sets
    [changed] and [available] again as long as the peer's authentication
    data are there, whether they have changed or not. *)
Theorem changed_set_again (w : World) (self : string) (data : pyval) :
  peer (conversation w self) !! "_authentication_data" = Some data ->
  data <> PyNone ->
  let w' := exec (Provides.changed self) (exec (Provides.clear_changed self) w) in
  in_state w' self changed_state /\ in_state w' self available.
Proof.
  intros Hp Hd. cbv zeta. unfold Provides.changed.
  rewrite exec_bind, outcome_log, exec_log.
  apply (update_status_with_data _ self data); [|exact Hd].
  rewrite conversation_emit. unfold Provides.clear_changed, exec, remove_state.
  cbn [fst]. rewrite conversation_with.
  destruct (decide (self = self)); [|congruence]. exact Hp.
Qed.

Lemma changed_set_again_witness :
  in_state
    (exec (Provides.changed "global")
       (exec (Provides.clear_changed "global") plugin_joined))
    "global" changed_state.
Proof.
  refine (proj1 (changed_set_again plugin_joined "global" (PyStr "{}") _ _)).
  - vm_compute. reflexivity.
  - discriminate.
Defined.
